(** * bg.js: the fading-circles background animation

    A shallow embedding of [src/bg.js].  The file holds two immediately
    invoked function expressions, both drawing on the canvas [bg-canvas]:

    - the first (lines 6-155) advances [createdAt] by a clamped per-frame
      delta, clamps the computed opacity and paints an edge ring;
    - the second (lines 164-297) computes ages from the frame timestamp
      alone and paints a filled disk.

    [resizeCanvas], [random] and the shape of [spawnCircle] are the same
    text in both; they are embedded once and instantiated per variant.

    Numbers.  The program is embedded twice.  In the first embedding a
    JavaScript Number is a [num]: an exact rational, or one of the three
    special values NaN, +Infinity, -Infinity; the arithmetic is that of
    IEEE 754 without rounding and with a single, positive zero.  The laws
    that are facts of arithmetic are proved there; they hold of the code
    up to rounding.  In the second, [Double], a Number is a binary64 value
    and every operation rounds as the JavaScript operation does: what the
    code computes at a given input is evaluated there, and the laws that
    rest on the shape of the code alone are proved there for every
    input. *)

From Stdlib Require Import QArith Qround Qminmax Lqa ZArith Lia SpecFloat.
From stdpp Require Import base list.

Open Scope Q_scope.

(** ** Numbers *)

Inductive num : Type :=
| NaN
| NegInf
| PosInf
| Fin (q : Q).

Definition Qltb (a b : Q) : bool := negb (Qle_bool b a).

(** The infinity (or NaN) that [x * Infinity] and [x / 0] produce, from the
    comparison of [x] with zero. *)
Definition signed_inf (c : comparison) : num :=
  match c with
  | Eq => NaN
  | Lt => NegInf
  | Gt => PosInf
  end.

Definition neg (x : num) : num :=
  match x with
  | NaN => NaN
  | NegInf => PosInf
  | PosInf => NegInf
  | Fin q => Fin (- q)
  end.

Definition add (x y : num) : num :=
  match x, y with
  | NaN, _ | _, NaN => NaN
  | PosInf, NegInf | NegInf, PosInf => NaN
  | PosInf, _ | _, PosInf => PosInf
  | NegInf, _ | _, NegInf => NegInf
  | Fin a, Fin b => Fin (a + b)
  end.

Definition sub (x y : num) : num := add x (neg y).

Definition mul (x y : num) : num :=
  match x, y with
  | NaN, _ | _, NaN => NaN
  | PosInf, PosInf | NegInf, NegInf => PosInf
  | PosInf, NegInf | NegInf, PosInf => NegInf
  | PosInf, Fin q | Fin q, PosInf => signed_inf (q ?= 0)
  | NegInf, Fin q | Fin q, NegInf => signed_inf (0 ?= q)
  | Fin a, Fin b => Fin (a * b)
  end.

Definition div (x y : num) : num :=
  match x, y with
  | NaN, _ | _, NaN => NaN
  | (PosInf | NegInf), (PosInf | NegInf) => NaN
  | Fin _, (PosInf | NegInf) => Fin 0
  | PosInf, Fin b => if Qltb b 0 then NegInf else PosInf
  | NegInf, Fin b => if Qltb b 0 then PosInf else NegInf
  | Fin a, Fin b => if Qeq_bool b 0 then signed_inf (a ?= 0) else Fin (a / b)
  end.

(** [x < y]; every comparison with NaN is false. *)
Definition lt (x y : num) : bool :=
  match x, y with
  | NaN, _ | _, NaN => false
  | _, NegInf => false
  | NegInf, _ => true
  | PosInf, _ => false
  | _, PosInf => true
  | Fin a, Fin b => Qltb a b
  end.

(** [x <= y]. *)
Definition le (x y : num) : bool :=
  match x, y with
  | NaN, _ | _, NaN => false
  | NegInf, _ => true
  | _, NegInf => false
  | _, PosInf => true
  | PosInf, _ => false
  | Fin a, Fin b => Qle_bool a b
  end.

Definition gt (x y : num) : bool := lt y x.
Definition ge (x y : num) : bool := le y x.

(** [Math.min(x, y)] and [Math.max(x, y)]: NaN as soon as one argument is. *)
Definition Math_min (x y : num) : num :=
  match x, y with
  | NaN, _ | _, NaN => NaN
  | _, _ => if lt y x then y else x
  end.

Definition Math_max (x y : num) : num :=
  match x, y with
  | NaN, _ | _, NaN => NaN
  | _, _ => if lt x y then y else x
  end.

Definition Math_floor (x : num) : num :=
  match x with
  | Fin q => Fin (inject_Z (Qfloor q))
  | _ => x
  end.

Definition Number_isFinite (x : num) : bool :=
  match x with
  | Fin _ => true
  | _ => false
  end.

(** ToBoolean on a number: zero and NaN are falsy. *)
Definition truthy (x : num) : bool :=
  match x with
  | NaN => false
  | Fin q => negb (Qeq_bool q 0)
  | _ => true
  end.

(** [v || d] where [v] may be [undefined] ([None]). *)
Definition or_else (v : option num) (d : num) : num :=
  match v with
  | Some x => if truthy x then x else d
  | None => d
  end.

(** Two numbers denote the same value. *)
Definition num_eq (x y : num) : Prop :=
  match x, y with
  | NaN, NaN | NegInf, NegInf | PosInf, PosInf => True
  | Fin a, Fin b => a == b
  | _, _ => False
  end.

Infix "=n=" := num_eq (at level 70, no associativity).

(** [lo <= x <= hi], as the comparisons of the language decide it. *)
Definition between (lo hi x : num) : Prop := le lo x = true /\ le x hi = true.

(** ** Data model *)

(** A CSS colour: the template string [hsla(h s% l% / a)], or the keyword
    [transparent]. *)
Inductive color : Type :=
| hsla (hue sat light alpha : num)
| transparent.

(** The objects pushed on [circles]. *)
Record circle : Type := Circle {
  x : num;
  y : num;
  radius : num;
  fill_color : color;
  lifeMs : num;
  fadeInPortion : num;
  fadeOutPortion : num;
  createdAt : num
}.

(** The string [n + 'px']. *)
Inductive css_length : Type :=
| px (n : num).

(** [ctx.createRadialGradient(x0, y0, r0, x1, y1, r1)] with its colour
    stops, in the order they were added. *)
Record gradient : Type := Gradient {
  inner : num * num * num;
  outer : num * num * num;
  stops : list (num * color)
}.

(** What reaches the drawing surface.  [fillArc] is the sequence
    [fillStyle = g; beginPath(); arc(cx, cy, r, 0, 2 * Math.PI); fill()]
    issued while [globalAlpha] had been assigned [alpha]. *)
Inductive draw_cmd : Type :=
| clearRect (x0 y0 w h : num)
| fillArc (alpha : num) (g : gradient) (cx cy r : num).

(** The canvas element and its 2D context. *)
Record surface : Type := Surface {
  width : num;
  height : num;
  style_width : css_length;
  style_height : css_length;
  transform : num * num * num * num * num * num;
  globalAlpha : num;
  drawn : list draw_cmd
}.

(** The variables one closure owns, the surface it draws on, and how often
    it has called into the host. *)
Record state : Type := State {
  surf : surface;
  devicePixelRatioScale : num;
  circles : list circle;
  lastSpawn : num;
  lastNow : num;
  random_calls : nat;
  clock_calls : nat;
  frames_requested : nat
}.

(** The host: [window], and the values the [n]-th call of [Math.random()]
    and of [performance.now()] return. *)
Record host : Type := Host {
  innerWidth : num;
  innerHeight : num;
  devicePixelRatio : option num;
  Math_random : nat -> Q;
  performance_now : nat -> num
}.

(** ** Running code: state, exceptions, loops that do not end *)

Inductive outcome (A : Type) : Type :=
| Ok (a : A)
| Throws
| Diverges.

Arguments Ok {A} a.
Arguments Throws {A}.
Arguments Diverges {A}.

Definition M (A : Type) : Type := state -> outcome (A * state).

Definition ret {A : Type} (a : A) : M A := fun s => Ok (a, s).

Definition bind {A B : Type} (m : M A) (k : A -> M B) : M B :=
  fun s =>
    match m s with
    | Ok (a, s') => k a s'
    | Throws => Throws
    | Diverges => Diverges
    end.

Notation "v <- m ;; k" := (bind m (fun v => k))
  (at level 100, m at next level, right associativity).
Notation "m ;; k" := (bind m (fun _ => k))
  (at level 100, right associativity).

Definition get : M state := fun s => Ok (s, s).
Definition modify (f : state -> state) : M unit := fun s => Ok (tt, f s).
Definition throw {A : Type} : M A := fun _ => Throws.
Definition diverge {A : Type} : M A := fun _ => Diverges.

(** The state a run ends in, when it ends. *)
Definition exec {A : Type} (m : M A) (s : state) : outcome state :=
  match m s with
  | Ok (_, s') => Ok s'
  | Throws => Throws
  | Diverges => Diverges
  end.

(** *** Assignments *)

Definition with_surf (f : surface -> surface) (s : state) : state :=
  State (f (surf s)) (devicePixelRatioScale s) (circles s) (lastSpawn s)
        (lastNow s) (random_calls s) (clock_calls s) (frames_requested s).

Definition set_devicePixelRatioScale (v : num) (s : state) : state :=
  State (surf s) v (circles s) (lastSpawn s) (lastNow s) (random_calls s)
        (clock_calls s) (frames_requested s).

Definition set_circles (cs : list circle) (s : state) : state :=
  State (surf s) (devicePixelRatioScale s) cs (lastSpawn s) (lastNow s)
        (random_calls s) (clock_calls s) (frames_requested s).

Definition set_lastSpawn (v : num) (s : state) : state :=
  State (surf s) (devicePixelRatioScale s) (circles s) v (lastNow s)
        (random_calls s) (clock_calls s) (frames_requested s).

Definition set_lastNow (v : num) (s : state) : state :=
  State (surf s) (devicePixelRatioScale s) (circles s) (lastSpawn s) v
        (random_calls s) (clock_calls s) (frames_requested s).

Definition set_width (v : num) (c : surface) : surface :=
  Surface v (height c) (style_width c) (style_height c) (transform c)
          (globalAlpha c) (drawn c).

Definition set_height (v : num) (c : surface) : surface :=
  Surface (width c) v (style_width c) (style_height c) (transform c)
          (globalAlpha c) (drawn c).

Definition set_style_width (v : css_length) (c : surface) : surface :=
  Surface (width c) (height c) v (style_height c) (transform c)
          (globalAlpha c) (drawn c).

Definition set_style_height (v : css_length) (c : surface) : surface :=
  Surface (width c) (height c) (style_width c) v (transform c)
          (globalAlpha c) (drawn c).

Definition setTransform (a b c d e f : num) (cv : surface) : surface :=
  Surface (width cv) (height cv) (style_width cv) (style_height cv)
          (a, b, c, d, e, f) (globalAlpha cv) (drawn cv).

Definition set_globalAlpha (v : num) (c : surface) : surface :=
  Surface (width c) (height c) (style_width c) (style_height c) (transform c)
          v (drawn c).

Definition emit (d : draw_cmd) (c : surface) : surface :=
  Surface (width c) (height c) (style_width c) (style_height c) (transform c)
          (globalAlpha c) (drawn c ++ [d]).

(** *** Calls into the host *)

Definition call_Math_random (h : host) : M num :=
  fun s =>
    Ok (Fin (Math_random h (random_calls s)),
        State (surf s) (devicePixelRatioScale s) (circles s) (lastSpawn s)
              (lastNow s) (S (random_calls s)) (clock_calls s)
              (frames_requested s)).

Definition call_performance_now (h : host) : M num :=
  fun s =>
    Ok (performance_now h (clock_calls s),
        State (surf s) (devicePixelRatioScale s) (circles s) (lastSpawn s)
              (lastNow s) (random_calls s) (S (clock_calls s))
              (frames_requested s)).

Definition requestAnimationFrame : M unit :=
  modify (fun s =>
    State (surf s) (devicePixelRatioScale s) (circles s) (lastSpawn s)
          (lastNow s) (random_calls s) (clock_calls s)
          (S (frames_requested s))).

(** ** resizeCanvas (lines 17-32 and 175-190) *)

Definition resizeCanvas (h : host) : M unit :=
  let scale := Math_min (Fin 2) (or_else (devicePixelRatio h) (Fin 1)) in
  modify (set_devicePixelRatioScale scale) ;;
  modify (with_surf (set_width (Math_floor (mul (innerWidth h) scale)))) ;;
  modify (with_surf (set_height (Math_floor (mul (innerHeight h) scale)))) ;;
  modify (with_surf (set_style_width (px (innerWidth h)))) ;;
  modify (with_surf (set_style_height (px (innerHeight h)))) ;;
  modify (with_surf (setTransform scale (Fin 0) (Fin 0) scale (Fin 0) (Fin 0))).

(** ** random (lines 39-41 and 197-199) *)

Definition random (h : host) (min max : num) : M num :=
  r <- call_Math_random h ;;
  ret (add (mul r (sub max min)) min).

(** ** spawnCircle (lines 44-72 and 202-230) *)

(** The constants in which the two copies of [spawnCircle] and [animate]
    differ. *)
Record tuning : Type := Tuning {
  sat_range : num * num;
  light_range : num * num;
  life_range : num * num
}.

Definition spawnCircle (k : tuning) (h : host) : M unit :=
  let w := innerWidth h in
  let h' := innerHeight h in
  let maxRadius := mul (Math_max w h') (Fin 0.08) in
  let minRadius := Math_max (Fin 20) (mul (Math_min w h') (Fin 0.01)) in
  radius <- random h minRadius maxRadius ;;
  x <- random h (neg radius) (add w radius) ;;
  y <- random h (neg radius) (add h' radius) ;;
  hue <- random h (Fin 0) (Fin 360) ;;
  sat <- random h (fst (sat_range k)) (snd (sat_range k)) ;;
  light <- random h (fst (light_range k)) (snd (light_range k)) ;;
  let color :=
    hsla (Math_floor hue) (Math_floor sat) (Math_floor light) (Fin 1) in
  lifeMs <- random h (fst (life_range k)) (snd (life_range k)) ;;
  let fadeInPortion := Fin 0.25 in
  let fadeOutPortion := Fin 0.25 in
  createdAt <- call_performance_now h ;;
  s <- get ;;
  modify (set_circles
            (circles s ++
             [Circle x y radius color lifeMs fadeInPortion fadeOutPortion
                     createdAt])).

(** ** Pieces of animate that both copies share *)

(** How often [for (let i = 0; i < count; i++)] runs its body: [i < count]
    holds for i = 0, 1, ... below a finite [count], never for NaN or
    -Infinity, and for every i when [count] is +Infinity ([None]). *)
Definition trip_count (count : num) : option nat :=
  match count with
  | Fin q => Some (Z.to_nat (Qceiling q))
  | PosInf => None
  | _ => Some 0%nat
  end.

Fixpoint times (n : nat) (body : M unit) : M unit :=
  match n with
  | O => ret tt
  | S n' => body ;; times n' body
  end.

Definition for_below (count : num) (body : M unit) : M unit :=
  match trip_count count with
  | Some n => times n body
  | None => diverge
  end.

(** Lines 93-99 and 245-251: the spawn block. *)
Definition spawn_block (k : tuning) (h : host) (now : num) : M unit :=
  s <- get ;;
  if gt (sub now (lastSpawn s)) (Fin 400) then
    modify (set_lastSpawn now) ;;
    r <- call_Math_random h ;;
    count <- (if lt r (Fin 0.2)
              then v <- random h (Fin 2) (Fin 4) ;; ret (Math_floor v)
              else ret (Fin 1)) ;;
    for_below count (spawnCircle k h)
  else ret tt.

(** Lines 113-124 and 262-273: the opacity from the progress [t]. *)
Definition fade (t : num) (c : circle) : num :=
  if lt t (fadeInPortion c) then div t (fadeInPortion c)
  else if gt t (sub (Fin 1) (fadeOutPortion c))
       then div (sub (Fin 1) t) (fadeOutPortion c)
       else Fin 1.

Definition age (now : num) (c : circle) : num := sub now (createdAt c).

(** [circles.splice(i, 1)] *)
Definition splice1 (i : nat) : M unit :=
  s <- get ;; modify (set_circles (delete i (circles s))).

(** ** The first copy (lines 6-155): delta accumulation, edge ring *)

Module Ring.

Definition tune : tuning :=
  Tuning (Fin 30, Fin 45) (Fin 80, Fin 92) (Fin 9000, Fin 14000).

(** [c.createdAt += delta] *)
Definition advance (delta : num) (c : circle) : circle :=
  Circle (x c) (y c) (radius c) (fill_color c) (lifeMs c) (fadeInPortion c)
         (fadeOutPortion c) (add (createdAt c) delta).

(** Lines 126-128. *)
Definition clamp (alpha : num) : num :=
  let alpha := if negb (Number_isFinite alpha) then Fin 0 else alpha in
  Math_max (Fin 0) (Math_min alpha (Fin 1)).

(** The value of [alpha] just before [alpha *= 0.22], for a circle whose
    [createdAt] has been advanced. *)
Definition opacity (now : num) (c : circle) : num :=
  let t := div (age now c) (lifeMs c) in
  clamp (fade t c).

Definition paint (alpha : num) (c : circle) : draw_cmd :=
  fillArc alpha
    (Gradient (x c, y c, Fin 0) (x c, y c, radius c)
       [(Fin 0, transparent); (Fin 0.6, transparent);
        (Fin 0.85, fill_color c); (Fin 1, transparent)])
    (x c) (y c) (radius c).

(** The body of the loop of lines 102-145 at index [i]. *)
Definition visit (now delta : num) (i : nat) : M unit :=
  s <- get ;;
  match circles s !! i with
  | None => throw
  | Some c =>
      let c := advance delta c in
      modify (set_circles (<[i := c]> (circles s))) ;;
      if ge (age now c) (lifeMs c) then splice1 i
      else
        let alpha := mul (opacity now c) (Fin 0.22) in
        modify (with_surf (set_globalAlpha alpha)) ;;
        modify (with_surf (emit (paint alpha c)))
  end.

(** [for (let i = n - 1; i >= 0; i--)] *)
Fixpoint sweep (now delta : num) (n : nat) : M unit :=
  match n with
  | O => ret tt
  | S i => visit now delta i ;; sweep now delta i
  end.

Definition frame_delta (now last : num) : num :=
  Math_min (Math_max (sub now last) (Fin 0)) (Fin 50).

Definition animate (h : host) (now : num) : M unit :=
  requestAnimationFrame ;;
  s <- get ;;
  let w := div (width (surf s)) (devicePixelRatioScale s) in
  let h' := div (height (surf s)) (devicePixelRatioScale s) in
  modify (with_surf (emit (clearRect (Fin 0) (Fin 0) w h'))) ;;
  let delta := frame_delta now (lastNow s) in
  modify (set_lastNow now) ;;
  spawn_block tune h now ;;
  s <- get ;;
  sweep now delta (length (circles s)) ;;
  modify (with_surf (set_globalAlpha (Fin 1))).

End Ring.

(** ** The second copy (lines 164-297): wall-clock ages, filled disk *)

Module Disk.

Definition tune : tuning :=
  Tuning (Fin 60, Fin 85) (Fin 55, Fin 75) (Fin 6000, Fin 12000).

(** The value of [alpha] just before [alpha *= 0.25]. *)
Definition opacity (now : num) (c : circle) : num :=
  let t := div (age now c) (lifeMs c) in
  fade t c.

Definition paint (alpha : num) (c : circle) : draw_cmd :=
  fillArc alpha
    (Gradient (x c, y c, Fin 0) (x c, y c, radius c)
       [(Fin 0, fill_color c); (Fin 1, transparent)])
    (x c) (y c) (radius c).

(** The body of the loop of lines 254-287 at index [i]. *)
Definition visit (now : num) (i : nat) : M unit :=
  s <- get ;;
  match circles s !! i with
  | None => throw
  | Some c =>
      if ge (age now c) (lifeMs c) then splice1 i
      else
        let alpha := mul (opacity now c) (Fin 0.25) in
        modify (with_surf (set_globalAlpha alpha)) ;;
        modify (with_surf (emit (paint alpha c)))
  end.

Fixpoint sweep (now : num) (n : nat) : M unit :=
  match n with
  | O => ret tt
  | S i => visit now i ;; sweep now i
  end.

Definition animate (h : host) (now : num) : M unit :=
  requestAnimationFrame ;;
  s <- get ;;
  let w := div (width (surf s)) (devicePixelRatioScale s) in
  let h' := div (height (surf s)) (devicePixelRatioScale s) in
  modify (with_surf (emit (clearRect (Fin 0) (Fin 0) w h'))) ;;
  spawn_block tune h now ;;
  s <- get ;;
  sweep now (length (circles s)) ;;
  modify (with_surf (set_globalAlpha (Fin 1))).

End Disk.

(** The page as the script finds it: a canvas of the default size, nothing
    drawn, and the initial values of the closure variables. *)
Definition fresh : state :=
  State (Surface (Fin 300) (Fin 150) (px (Fin 300)) (px (Fin 150))
                 (Fin 1, Fin 0, Fin 0, Fin 1, Fin 0, Fin 0) (Fin 1) [])
        (Fin 1) [] (Fin 0) (Fin 0) 0 0 0.

(** ** Vocabulary of the statements *)

(** The test of lines 108 and 257. *)
Definition expired (now : num) (c : circle) : bool :=
  ge (age now c) (lifeMs c).

Definition alive (now : num) (c : circle) : bool := negb (expired now c).


(** The state after one call of [Math.random()]. *)
Definition bump_random (s : state) : state :=
  State (surf s) (devicePixelRatioScale s) (circles s) (lastSpawn s)
        (lastNow s) (S (random_calls s)) (clock_calls s) (frames_requested s).

(** A circle as [spawnCircle] makes them: the two fade portions at 0.25
    and a finite lifetime in the range of its variant. *)
Definition as_spawned (lo hi : Q) (c : circle) : Prop :=
  fadeInPortion c = Fin 0.25 /\
  fadeOutPortion c = Fin 0.25 /\
  exists l : Q, lifeMs c = Fin l /\ lo <= l <= hi.

(** What a call of [spawnCircle] leaves alone, and a property [P] of the
    circle it pushes. *)
Definition pushes_one (k : tuning) (h : host) (P : circle -> Prop) : Prop :=
  forall s : state,
    exists (c : circle) (s' : state),
      spawnCircle k h s = Ok (tt, s') /\
      circles s' = circles s ++ [c] /\
      surf s' = surf s /\
      devicePixelRatioScale s' = devicePixelRatioScale s /\
      lastSpawn s' = lastSpawn s /\
      lastNow s' = lastNow s /\
      P c.

(** ** Concrete pages *)

(** A 1000 by 800 window at pixel ratio 1; every draw is 0.5, and the clock
    reads 1000.5 ms when [spawnCircle] asks. *)
Definition calm_host : host :=
  Host (Fin 1000) (Fin 800) (Some (Fin 1)) (fun _ => 0.5)
       (fun _ => Fin 1000.5).

(** The same window when the first draw is 0.1 and the later ones 0.75. *)
Definition burst_host : host :=
  Host (Fin 1000) (Fin 800) (Some (Fin 1))
       (fun n => match n with O => 0.1 | _ => 0.75 end)
       (fun _ => Fin 1000.5).

(** A 100 by 100 window. *)
Definition small_host : host :=
  Host (Fin 100) (Fin 100) (Some (Fin 1)) (fun _ => 0.5) (fun _ => Fin 0).

(** A circle in the middle of a 1000 by 800 window, all of whose numbers
    but the two given are fixed. *)
Definition lone (created life : num) : circle :=
  Circle (Fin 500) (Fin 400) (Fin 50) (hsla (Fin 180) (Fin 37) (Fin 86) (Fin 1))
         life (Fin 0.25) (Fin 0.25) created.

(** A run in progress: one circle, the last frame at 950 ms, the last
    spawn at 900 ms. *)
Definition mid_run : state :=
  State (Surface (Fin 1000) (Fin 800) (px (Fin 1000)) (px (Fin 800))
                 (Fin 1, Fin 0, Fin 0, Fin 1, Fin 0, Fin 0) (Fin 1) [])
        (Fin 1) [lone (Fin 0) (Fin 10000)] (Fin 900) (Fin 950) 0 0 0.

(** ** The page from load on *)

(** Lines 151-154 and 293-296: size the canvas, install [resizeCanvas] as
    the listener of resize events, ask for the first frame.  What the
    listener and the frame callback do when the host calls them is
    [dispatch]. *)
Definition start (h : host) : M unit :=
  resizeCanvas h ;;
  requestAnimationFrame.

(** What the host may do to a loaded page: call the frame callback with a
    timestamp, or fire a resize event; either comes with the window, the
    random source and the clock of that moment. *)
Inductive event : Type :=
| tick (h : host) (now : num)
| resized (h : host).

Definition dispatch (animate : host -> num -> M unit) (e : event) : M unit :=
  match e with
  | tick h now => animate h now
  | resized h => resizeCanvas h
  end.

Fixpoint run (animate : host -> num -> M unit) (es : list event) : M unit :=
  match es with
  | [] => ret tt
  | e :: es' => dispatch animate e ;; run animate es'
  end.

Definition is_tick (e : event) : bool :=
  match e with
  | tick _ _ => true
  | resized _ => false
  end.

(** What [resizeCanvas] decides and nothing else may change: the scale
    factor, the resolution, the displayed size and the transform. *)
Definition sizing (s : state) :
    num * num * num * css_length * css_length
    * (num * num * num * num * num * num) :=
  (devicePixelRatioScale s, width (surf s), height (surf s),
   style_width (surf s), style_height (surf s), transform (surf s)).

(** The window of the latest resize event of [es], [h0] when there is
    none. *)
Fixpoint last_window (h0 : host) (es : list event) : host :=
  match es with
  | [] => h0
  | resized h :: es' => last_window h es'
  | tick _ _ :: es' => last_window h0 es'
  end.

Definition host_of (e : event) : host :=
  match e with
  | tick h _ => h
  | resized h => h
  end.

(** The surface is sized for the window of [h]: running [resizeCanvas]
    would change nothing of the sizing. *)
Definition in_sync (h : host) (s : state) : Prop :=
  exists r : state, exec (resizeCanvas h) s = Ok r /\ sizing r = sizing s.

Definition draws_in_range (h : host) : Prop :=
  forall n : nat, 0 <= Math_random h n < 1.

(** * The same program over IEEE 754 doubles

    The embedding once more, statement by statement, with every number a
    binary64 value ([spec_float] at precision 53 and exponent bound 1024)
    and every arithmetic operation rounded to nearest, ties to even, as
    the operations on JavaScript Numbers are. *)

Module Double.

Declare Scope double_scope.
Local Open Scope double_scope.

(** *** Numbers *)

Definition double : Type := spec_float.

(** The double nearest to an integer. *)
Definition of_Z (z : Z) : double := binary_normalize 53 1024 z 0 false.

(** The decimal literal [n / 10^k]: the double nearest to it, [n] and
    [10^k] being doubles themselves. *)
Definition dec (n : Z) (k : nat) : double :=
  SFdiv 53 1024 (of_Z n) (of_Z (10 ^ Z.of_nat k)).

Definition neg (x : double) : double := SFopp x.
Definition add (x y : double) : double := SFadd 53 1024 x y.
Definition sub (x y : double) : double := SFsub 53 1024 x y.
Definition mul (x y : double) : double := SFmul 53 1024 x y.
Definition div (x y : double) : double := SFdiv 53 1024 x y.

(** [x < y] and [x <= y]; every comparison with NaN is false. *)
Definition lt (x y : double) : bool := SFltb x y.
Definition le (x y : double) : bool := SFleb x y.
Definition gt (x y : double) : bool := lt y x.
Definition ge (x y : double) : bool := le y x.

(** [Math.min(x, y)] and [Math.max(x, y)]: NaN as soon as one argument
    is, and -0 below +0. *)
Definition Math_min (x y : double) : double :=
  match x, y with
  | S754_nan, _ | _, S754_nan => S754_nan
  | S754_zero sx, S754_zero sy => S754_zero (sx || sy)
  | _, _ => if lt y x then y else x
  end.

Definition Math_max (x y : double) : double :=
  match x, y with
  | S754_nan, _ | _, S754_nan => S754_nan
  | S754_zero sx, S754_zero sy => S754_zero (sx && sy)
  | _, _ => if lt x y then y else x
  end.

(** [Math.floor(x)]: a finite [x] is (+/-) m * 2^e. *)
Definition Math_floor (x : double) : double :=
  match x with
  | S754_finite s m e =>
      if (0 <=? e)%Z then x
      else binary_normalize 53 1024
             ((if s then Z.neg m else Z.pos m) / 2 ^ (- e))%Z 0 s
  | _ => x
  end.

Definition Number_isFinite (x : double) : bool :=
  match x with
  | S754_zero _ | S754_finite _ _ _ => true
  | _ => false
  end.

(** ToBoolean on a number: both zeros and NaN are falsy. *)
Definition truthy (x : double) : bool :=
  match x with
  | S754_nan | S754_zero _ => false
  | _ => true
  end.

(** [v || d] where [v] may be [undefined] ([None]). *)
Definition or_else (v : option double) (d : double) : double :=
  match v with
  | Some x => if truthy x then x else d
  | None => d
  end.

(** *** Data model *)

(** A CSS colour: the template string [hsla(h s% l% / a)], or the keyword
    [transparent]. *)
Inductive color : Type :=
| hsla (hue sat light alpha : double)
| transparent.

(** The objects pushed on [circles]. *)
Record circle : Type := Circle {
  x : double;
  y : double;
  radius : double;
  fill_color : color;
  lifeMs : double;
  fadeInPortion : double;
  fadeOutPortion : double;
  createdAt : double
}.

(** The string [n + 'px']. *)
Inductive css_length : Type :=
| px (n : double).

(** [ctx.createRadialGradient(x0, y0, r0, x1, y1, r1)] with its colour
    stops, in the order they were added. *)
Record gradient : Type := Gradient {
  inner : double * double * double;
  outer : double * double * double;
  stops : list (double * color)
}.

(** What reaches the drawing surface.  [fillArc] is the sequence
    [fillStyle = g; beginPath(); arc(cx, cy, r, 0, 2 * Math.PI); fill()]
    issued while [globalAlpha] had been assigned [alpha]. *)
Inductive draw_cmd : Type :=
| clearRect (x0 y0 w h : double)
| fillArc (alpha : double) (g : gradient) (cx cy r : double).

(** The canvas element and its 2D context. *)
Record surface : Type := Surface {
  width : double;
  height : double;
  style_width : css_length;
  style_height : css_length;
  transform : double * double * double * double * double * double;
  globalAlpha : double;
  drawn : list draw_cmd
}.

(** The variables one closure owns, the surface it draws on, and how often
    it has called into the host. *)
Record state : Type := State {
  surf : surface;
  devicePixelRatioScale : double;
  circles : list circle;
  lastSpawn : double;
  lastNow : double;
  random_calls : nat;
  clock_calls : nat;
  frames_requested : nat
}.

(** The host: [window], and the values the [n]-th call of [Math.random()]
    and of [performance.now()] return. *)
Record host : Type := Host {
  innerWidth : double;
  innerHeight : double;
  devicePixelRatio : option double;
  Math_random : nat -> double;
  performance_now : nat -> double
}.

(** *** Running code *)

Definition M (A : Type) : Type := state -> outcome (A * state).

Definition ret {A : Type} (a : A) : M A := fun s => Ok (a, s).

Definition bind {A B : Type} (m : M A) (k : A -> M B) : M B :=
  fun s =>
    match m s with
    | Ok (a, s') => k a s'
    | Throws => Throws
    | Diverges => Diverges
    end.

Notation "v <- m ;; k" := (bind m (fun v => k)) : double_scope.
Notation "m ;; k" := (bind m (fun _ => k)) : double_scope.

Definition get : M state := fun s => Ok (s, s).
Definition modify (f : state -> state) : M unit := fun s => Ok (tt, f s).
Definition throw {A : Type} : M A := fun _ => Throws.
Definition diverge {A : Type} : M A := fun _ => Diverges.

(** The state a run ends in, when it ends. *)
Definition exec {A : Type} (m : M A) (s : state) : outcome state :=
  match m s with
  | Ok (_, s') => Ok s'
  | Throws => Throws
  | Diverges => Diverges
  end.

(** *** Assignments *)

Definition with_surf (f : surface -> surface) (s : state) : state :=
  State (f (surf s)) (devicePixelRatioScale s) (circles s) (lastSpawn s)
        (lastNow s) (random_calls s) (clock_calls s) (frames_requested s).

Definition set_devicePixelRatioScale (v : double) (s : state) : state :=
  State (surf s) v (circles s) (lastSpawn s) (lastNow s) (random_calls s)
        (clock_calls s) (frames_requested s).

Definition set_circles (cs : list circle) (s : state) : state :=
  State (surf s) (devicePixelRatioScale s) cs (lastSpawn s) (lastNow s)
        (random_calls s) (clock_calls s) (frames_requested s).

Definition set_lastSpawn (v : double) (s : state) : state :=
  State (surf s) (devicePixelRatioScale s) (circles s) v (lastNow s)
        (random_calls s) (clock_calls s) (frames_requested s).

Definition set_lastNow (v : double) (s : state) : state :=
  State (surf s) (devicePixelRatioScale s) (circles s) (lastSpawn s) v
        (random_calls s) (clock_calls s) (frames_requested s).

Definition set_width (v : double) (c : surface) : surface :=
  Surface v (height c) (style_width c) (style_height c) (transform c)
          (globalAlpha c) (drawn c).

Definition set_height (v : double) (c : surface) : surface :=
  Surface (width c) v (style_width c) (style_height c) (transform c)
          (globalAlpha c) (drawn c).

Definition set_style_width (v : css_length) (c : surface) : surface :=
  Surface (width c) (height c) v (style_height c) (transform c)
          (globalAlpha c) (drawn c).

Definition set_style_height (v : css_length) (c : surface) : surface :=
  Surface (width c) (height c) (style_width c) v (transform c)
          (globalAlpha c) (drawn c).

Definition setTransform (a b c d e f : double) (cv : surface) : surface :=
  Surface (width cv) (height cv) (style_width cv) (style_height cv)
          (a, b, c, d, e, f) (globalAlpha cv) (drawn cv).

Definition set_globalAlpha (v : double) (c : surface) : surface :=
  Surface (width c) (height c) (style_width c) (style_height c) (transform c)
          v (drawn c).

Definition emit (d : draw_cmd) (c : surface) : surface :=
  Surface (width c) (height c) (style_width c) (style_height c) (transform c)
          (globalAlpha c) (drawn c ++ [d]).

(** *** Calls into the host *)

Definition call_Math_random (h : host) : M double :=
  fun s =>
    Ok (Math_random h (random_calls s),
        State (surf s) (devicePixelRatioScale s) (circles s) (lastSpawn s)
              (lastNow s) (S (random_calls s)) (clock_calls s)
              (frames_requested s)).

Definition call_performance_now (h : host) : M double :=
  fun s =>
    Ok (performance_now h (clock_calls s),
        State (surf s) (devicePixelRatioScale s) (circles s) (lastSpawn s)
              (lastNow s) (random_calls s) (S (clock_calls s))
              (frames_requested s)).

Definition requestAnimationFrame : M unit :=
  modify (fun s =>
    State (surf s) (devicePixelRatioScale s) (circles s) (lastSpawn s)
          (lastNow s) (random_calls s) (clock_calls s)
          (S (frames_requested s))).

(** *** resizeCanvas (lines 17-32 and 175-190) *)

Definition resizeCanvas (h : host) : M unit :=
  let scale := Math_min (of_Z 2) (or_else (devicePixelRatio h) (of_Z 1)) in
  modify (set_devicePixelRatioScale scale) ;;
  modify (with_surf (set_width (Math_floor (mul (innerWidth h) scale)))) ;;
  modify (with_surf (set_height (Math_floor (mul (innerHeight h) scale)))) ;;
  modify (with_surf (set_style_width (px (innerWidth h)))) ;;
  modify (with_surf (set_style_height (px (innerHeight h)))) ;;
  modify (with_surf (setTransform scale (of_Z 0) (of_Z 0) scale (of_Z 0) (of_Z 0))).

(** *** random (lines 39-41 and 197-199) *)

Definition random (h : host) (min max : double) : M double :=
  r <- call_Math_random h ;;
  ret (add (mul r (sub max min)) min).

(** *** spawnCircle (lines 44-72 and 202-230) *)

(** The constants in which the two copies of [spawnCircle] and [animate]
    differ. *)
Record tuning : Type := Tuning {
  sat_range : double * double;
  light_range : double * double;
  life_range : double * double
}.

Definition spawnCircle (k : tuning) (h : host) : M unit :=
  let w := innerWidth h in
  let h' := innerHeight h in
  let maxRadius := mul (Math_max w h') (dec 8 2) in
  let minRadius := Math_max (of_Z 20) (mul (Math_min w h') (dec 1 2)) in
  radius <- random h minRadius maxRadius ;;
  x <- random h (neg radius) (add w radius) ;;
  y <- random h (neg radius) (add h' radius) ;;
  hue <- random h (of_Z 0) (of_Z 360) ;;
  sat <- random h (fst (sat_range k)) (snd (sat_range k)) ;;
  light <- random h (fst (light_range k)) (snd (light_range k)) ;;
  let color :=
    hsla (Math_floor hue) (Math_floor sat) (Math_floor light) (of_Z 1) in
  lifeMs <- random h (fst (life_range k)) (snd (life_range k)) ;;
  let fadeInPortion := (dec 25 2) in
  let fadeOutPortion := (dec 25 2) in
  createdAt <- call_performance_now h ;;
  s <- get ;;
  modify (set_circles
            (circles s ++
             [Circle x y radius color lifeMs fadeInPortion fadeOutPortion
                     createdAt])).

(** *** Pieces of animate that both copies share *)

(** How often [for (let i = 0; i < count; i++)] runs its body: [i < count]
    holds for i = 0, 1, ... below a finite [count], never for NaN or
    -Infinity, and for every i the loop reaches when [count] is +Infinity
    or exceeds 2^53, where [i++] stops growing ([None]). *)
Definition trip_count (count : double) : option nat :=
  match count with
  | S754_finite false m e =>
      let n := (if (0 <=? e)%Z then Z.pos m * 2 ^ e
                else - (Z.neg m / 2 ^ (- e)))%Z in
      if (n <=? 2 ^ 53)%Z then Some (Z.to_nat n) else None
  | S754_infinity false => None
  | _ => Some 0%nat
  end.

Fixpoint times (n : nat) (body : M unit) : M unit :=
  match n with
  | O => ret tt
  | S n' => body ;; times n' body
  end.

Definition for_below (count : double) (body : M unit) : M unit :=
  match trip_count count with
  | Some n => times n body
  | None => diverge
  end.

(** Lines 93-99 and 245-251: the spawn block. *)
Definition spawn_block (k : tuning) (h : host) (now : double) : M unit :=
  s <- get ;;
  if gt (sub now (lastSpawn s)) (of_Z 400) then
    modify (set_lastSpawn now) ;;
    r <- call_Math_random h ;;
    count <- (if lt r (dec 2 1)
              then v <- random h (of_Z 2) (of_Z 4) ;; ret (Math_floor v)
              else ret (of_Z 1)) ;;
    for_below count (spawnCircle k h)
  else ret tt.

(** Lines 113-124 and 262-273: the opacity from the progress [t]. *)
Definition fade (t : double) (c : circle) : double :=
  if lt t (fadeInPortion c) then div t (fadeInPortion c)
  else if gt t (sub (of_Z 1) (fadeOutPortion c))
       then div (sub (of_Z 1) t) (fadeOutPortion c)
       else (of_Z 1).

Definition age (now : double) (c : circle) : double :=
  sub now (createdAt c).

(** [circles.splice(i, 1)] *)
Definition splice1 (i : nat) : M unit :=
  s <- get ;; modify (set_circles (delete i (circles s))).

(** *** The first copy (lines 6-155): delta accumulation, edge ring *)

Module Ring.

Definition tune : tuning :=
  Tuning ((of_Z 30), (of_Z 45)) ((of_Z 80), (of_Z 92)) ((of_Z 9000), (of_Z 14000)).

(** [c.createdAt += delta] *)
Definition advance (delta : double) (c : circle) : circle :=
  Circle (x c) (y c) (radius c) (fill_color c) (lifeMs c) (fadeInPortion c)
         (fadeOutPortion c) (add (createdAt c) delta).

(** Lines 126-128. *)
Definition clamp (alpha : double) : double :=
  let alpha := if negb (Number_isFinite alpha) then (of_Z 0) else alpha in
  Math_max (of_Z 0) (Math_min alpha (of_Z 1)).

(** The value of [alpha] just before [alpha *= 0.22], for a circle whose
    [createdAt] has been advanced. *)
Definition opacity (now : double) (c : circle) : double :=
  let t := div (age now c) (lifeMs c) in
  clamp (fade t c).

Definition paint (alpha : double) (c : circle) : draw_cmd :=
  fillArc alpha
    (Gradient (x c, y c, (of_Z 0)) (x c, y c, radius c)
       [((of_Z 0), transparent); ((dec 6 1), transparent);
        ((dec 85 2), fill_color c); ((of_Z 1), transparent)])
    (x c) (y c) (radius c).

(** The body of the loop of lines 102-145 at index [i]. *)
Definition visit (now delta : double) (i : nat) : M unit :=
  s <- get ;;
  match circles s !! i with
  | None => throw
  | Some c =>
      let c := advance delta c in
      modify (set_circles (<[i := c]> (circles s))) ;;
      if ge (age now c) (lifeMs c) then splice1 i
      else
        let alpha := mul (opacity now c) (dec 22 2) in
        modify (with_surf (set_globalAlpha alpha)) ;;
        modify (with_surf (emit (paint alpha c)))
  end.

(** [for (let i = n - 1; i >= 0; i--)] *)
Fixpoint sweep (now delta : double) (n : nat) : M unit :=
  match n with
  | O => ret tt
  | S i => visit now delta i ;; sweep now delta i
  end.

Definition frame_delta (now last : double) : double :=
  Math_min (Math_max (sub now last) (of_Z 0)) (of_Z 50).

Definition animate (h : host) (now : double) : M unit :=
  requestAnimationFrame ;;
  s <- get ;;
  let w := div (width (surf s)) (devicePixelRatioScale s) in
  let h' := div (height (surf s)) (devicePixelRatioScale s) in
  modify (with_surf (emit (clearRect (of_Z 0) (of_Z 0) w h'))) ;;
  let delta := frame_delta now (lastNow s) in
  modify (set_lastNow now) ;;
  spawn_block tune h now ;;
  s <- get ;;
  sweep now delta (length (circles s)) ;;
  modify (with_surf (set_globalAlpha (of_Z 1))).

End Ring.

(** *** The second copy (lines 164-297): wall-clock ages, filled disk *)

Module Disk.

Definition tune : tuning :=
  Tuning ((of_Z 60), (of_Z 85)) ((of_Z 55), (of_Z 75)) ((of_Z 6000), (of_Z 12000)).

(** The value of [alpha] just before [alpha *= 0.25]. *)
Definition opacity (now : double) (c : circle) : double :=
  let t := div (age now c) (lifeMs c) in
  fade t c.

Definition paint (alpha : double) (c : circle) : draw_cmd :=
  fillArc alpha
    (Gradient (x c, y c, (of_Z 0)) (x c, y c, radius c)
       [((of_Z 0), fill_color c); ((of_Z 1), transparent)])
    (x c) (y c) (radius c).

(** The body of the loop of lines 254-287 at index [i]. *)
Definition visit (now : double) (i : nat) : M unit :=
  s <- get ;;
  match circles s !! i with
  | None => throw
  | Some c =>
      if ge (age now c) (lifeMs c) then splice1 i
      else
        let alpha := mul (opacity now c) (dec 25 2) in
        modify (with_surf (set_globalAlpha alpha)) ;;
        modify (with_surf (emit (paint alpha c)))
  end.

Fixpoint sweep (now : double) (n : nat) : M unit :=
  match n with
  | O => ret tt
  | S i => visit now i ;; sweep now i
  end.

Definition animate (h : host) (now : double) : M unit :=
  requestAnimationFrame ;;
  s <- get ;;
  let w := div (width (surf s)) (devicePixelRatioScale s) in
  let h' := div (height (surf s)) (devicePixelRatioScale s) in
  modify (with_surf (emit (clearRect (of_Z 0) (of_Z 0) w h'))) ;;
  spawn_block tune h now ;;
  s <- get ;;
  sweep now (length (circles s)) ;;
  modify (with_surf (set_globalAlpha (of_Z 1))).

End Disk.

(** The page as the script finds it: a canvas of the default size, nothing
    drawn, and the initial values of the closure variables. *)
Definition fresh : state :=
  State (Surface (of_Z 300) (of_Z 150) (px (of_Z 300)) (px (of_Z 150))
                 ((of_Z 1), (of_Z 0), (of_Z 0), (of_Z 1), (of_Z 0), (of_Z 0)) (of_Z 1) [])
        (of_Z 1) [] (of_Z 0) (of_Z 0) 0 0 0.

(** *** Vocabulary of the statements *)

(** The test [age >= c.lifeMs] of lines 108 and 257, and its negation. *)
Definition expired (now : double) (c : circle) : bool :=
  ge (age now c) (lifeMs c).

Definition alive (now : double) (c : circle) : bool := negb (expired now c).

(** The state after one call of [Math.random()]. *)
Definition bump_random (s : state) : state :=
  State (surf s) (devicePixelRatioScale s) (circles s) (lastSpawn s)
        (lastNow s) (S (random_calls s)) (clock_calls s)
        (frames_requested s).


(** *** Concrete pages *)


(** The largest double below 1, 1 - 2^-53. *)
Definition below_one : double := S754_finite false 9007199254740991 (-53).

(** The same window when [Math.random()] returns 0.1, then [below_one],
    then 0.5 every time, and the clock reads 1000.5. *)
Definition edge_page : host :=
  Host (of_Z 1000) (of_Z 800) (Some (of_Z 1))
       (fun n => match n with
                 | O => dec 1 1
                 | S O => below_one
                 | _ => dec 5 1
                 end)
       (fun _ => dec 10005 1).

(** A 1000 x 800 window at device pixel ratio 1.15. *)
Definition zoomed_page : host :=
  Host (of_Z 1000) (of_Z 800) (Some (dec 115 2)) (fun _ => dec 5 1)
       (fun _ => of_Z 0).

(** A circle of the scenario: fade portions 0.25. *)
Definition lone (created life : double) : circle :=
  Circle (of_Z 100) (of_Z 100) (of_Z 50)
         (hsla (of_Z 200) (of_Z 40) (of_Z 85) (of_Z 1))
         life (dec 25 2) (dec 25 2) created.

(** Lines 151-154 and 293-296: size the canvas and ask for the first
    frame. *)
Definition start (h : host) : M unit :=
  resizeCanvas h ;;
  requestAnimationFrame.

End Double.

(** * Properties *)

(** ** Comparisons *)

Lemma Qltb_lt (a b : Q) : Qltb a b = true <-> a < b.
Proof.
  unfold Qltb. rewrite negb_true_iff.
  destruct (Qle_bool b a) eqn:E.
  - apply Qle_bool_iff in E. split; [discriminate | lra].
  - split; [intros _ | reflexivity].
    destruct (Qlt_le_dec a b) as [L | L]; [exact L |].
    apply Qle_bool_iff in L. congruence.
Qed.

Lemma Qltb_ge (a b : Q) : Qltb a b = false <-> b <= a.
Proof.
  unfold Qltb. rewrite negb_false_iff. apply Qle_bool_iff.
Qed.

Lemma lt_Fin (a b : Q) : lt (Fin a) (Fin b) = true <-> a < b.
Proof. apply Qltb_lt. Qed.

Lemma le_Fin (a b : Q) : le (Fin a) (Fin b) = true <-> a <= b.
Proof. apply Qle_bool_iff. Qed.

Lemma between_Fin (lo hi v : Q) :
  between (Fin lo) (Fin hi) (Fin v) <-> lo <= v <= hi.
Proof. unfold between. rewrite !le_Fin. reflexivity. Qed.


(** ** The counting loop *)

(** [trip_count] is the number of passes of the loop test [i < count]. *)
Lemma trip_count_exact (count : num) (n : nat) :
  trip_count count = Some n ->
  (forall i : nat,
     (i < n)%nat -> lt (Fin (inject_Z (Z.of_nat i))) count = true) /\
  lt (Fin (inject_Z (Z.of_nat n))) count = false.
Proof.
  destruct count as [| | |q]; cbn [trip_count]; intros E;
    try discriminate;
    try (assert (n = 0%nat) by congruence; subst n; split;
         [intros i Hi; lia | reflexivity]).
  assert (En : n = Z.to_nat (Qceiling q)) by congruence. clear E.
  pose proof (Qceiling_lt q) as Hlt. pose proof (Qle_ceiling q) as Hle.
  split.
  - intros i Hi. apply lt_Fin.
    apply Qle_lt_trans with (inject_Z (Qceiling q - 1)); [| exact Hlt].
    rewrite <- Zle_Qle. lia.
  - apply Qltb_ge.
    apply Qle_trans with (inject_Z (Qceiling q)); [exact Hle |].
    rewrite <- Zle_Qle. lia.
Qed.

Lemma trip_count_endless (count : num) :
  trip_count count = None ->
  forall i : nat, lt (Fin (inject_Z (Z.of_nat i))) count = true.
Proof.
  destruct count; cbn [trip_count]; intros E i; try discriminate.
  reflexivity.
Qed.

(** ** resizeCanvas *)

(** C9.  [resizeCanvas] is idempotent: run again under the same window, on
    the state its first run left, it returns that state unchanged, so two
    runs in succession end where one run ends: same resolution, displayed
    size, scale factor and transform. *)
Theorem resizeCanvas_idempotent (h : host) (s : state) :
  exists s1 : state,
    exec (resizeCanvas h) s = Ok s1 /\
    exec (resizeCanvas h) s1 = Ok s1 /\
    exec (resizeCanvas h ;; resizeCanvas h) s = Ok s1.
Proof.
  eexists. split; [| split].
  - unfold exec, resizeCanvas, bind, modify. reflexivity.
  - unfold exec, resizeCanvas, bind, modify.
    cbn [surf devicePixelRatioScale circles lastSpawn lastNow random_calls
         clock_calls frames_requested with_surf set_devicePixelRatioScale
         set_width set_height set_style_width set_style_height setTransform
         width height style_width style_height transform globalAlpha drawn].
    reflexivity.
  - unfold exec, resizeCanvas, bind, modify. reflexivity.
Qed.

(** C10.  [resizeCanvas] touches the resolution, the displayed size, the
    scale factor and the transform, nothing else: the circles, with their
    positions and radii, the two timestamps, the opacity and what has been
    drawn are as before. *)
Theorem resizeCanvas_keeps_circles (h : host) (s : state) :
  exists s' : state,
    exec (resizeCanvas h) s = Ok s' /\
    circles s' = circles s /\
    lastSpawn s' = lastSpawn s /\
    lastNow s' = lastNow s /\
    globalAlpha (surf s') = globalAlpha (surf s) /\
    drawn (surf s') = drawn (surf s) /\
    random_calls s' = random_calls s /\
    clock_calls s' = clock_calls s /\
    frames_requested s' = frames_requested s.
Proof.
  eexists. split.
  - unfold exec, resizeCanvas, bind, modify. reflexivity.
  - repeat split; reflexivity.
Qed.

(** ** Running the monad *)

Lemma take_delete_same {A} (l : list A) i : take i (delete i l) = take i l.
Proof.
  revert i. induction l as [|a l IH]; intros [|i]; simpl; try reflexivity.
  f_equal. apply IH.
Qed.

Lemma drop_delete_same {A} (l : list A) i : drop i (delete i l) = drop (S i) l.
Proof.
  revert i. induction l as [|a l IH]; intros [|i]; simpl; try reflexivity.
  apply IH.
Qed.

(** ** The two loops over the circles *)

Lemma Disk_sweep_run (now : num) (n : nat) :
  forall s : state,
    (n <= length (circles s))%nat ->
    exists s' : state,
      Disk.sweep now n s = Ok (tt, s') /\
      circles s' =
        List.filter (alive now) (take n (circles s)) ++ drop n (circles s) /\
      drawn (surf s') =
        drawn (surf s) ++
        List.map (fun c => Disk.paint (mul (Disk.opacity now c) (Fin 0.25)) c)
                 (rev (List.filter (alive now) (take n (circles s)))) /\
      lastSpawn s' = lastSpawn s.
Proof.
  induction n as [|i IH]; intros s Hn.
  - exists s. split; [reflexivity |]. rewrite take_0, drop_0.
    cbn [List.filter rev List.map]. rewrite app_nil_r. auto.
  - destruct (lookup_lt_is_Some_2 (circles s) i) as [c Hc]; [lia |].
    cbn [Disk.sweep]. unfold bind at 1. unfold Disk.visit, bind at 1, get.
    rewrite Hc.
    rewrite (take_S_r _ _ _ Hc), List.filter_app. cbn [List.filter].
    change (alive now c) with (negb (ge (age now c) (lifeMs c))).
    destruct (ge (age now c) (lifeMs c)) eqn:G; cbn [negb].
    + unfold splice1, bind, get, modify.
      destruct (IH (set_circles (delete i (circles s)) s))
        as (s' & R & C & D & L).
      { cbn. rewrite length_delete by eauto. lia. }
      exists s'. split; [exact R |].
      rewrite C, D. cbn [circles set_circles surf] in *.
      rewrite take_delete_same, drop_delete_same, !app_nil_r. auto.
    + unfold bind, modify.
      match goal with |- context [Disk.sweep now i ?st] =>
        destruct (IH st) as (s' & R & C & D & L) end.
      { cbn. lia. }
      exists s'. split; [exact R |].
      rewrite C, D. cbn [circles with_surf surf emit set_globalAlpha drawn] in *.
      rewrite <- !app_assoc. cbn [app].
      rewrite (drop_S _ _ _ Hc), rev_app_distr. cbn [rev app List.map]. auto.
Qed.

Lemma Ring_sweep_run (now delta : num) (n : nat) :
  forall s : state,
    (n <= length (circles s))%nat ->
    exists s' : state,
      Ring.sweep now delta n s = Ok (tt, s') /\
      circles s' =
        List.filter (alive now)
                    (List.map (Ring.advance delta) (take n (circles s)))
        ++ drop n (circles s) /\
      drawn (surf s') =
        drawn (surf s) ++
        List.map (fun c => Ring.paint (mul (Ring.opacity now c) (Fin 0.22)) c)
                 (rev (List.filter (alive now)
                         (List.map (Ring.advance delta)
                                   (take n (circles s))))) /\
      lastSpawn s' = lastSpawn s /\
      lastNow s' = lastNow s.
Proof.
  induction n as [|i IH]; intros s Hn.
  - exists s. split; [reflexivity |]. rewrite take_0, drop_0.
    cbn [List.filter rev List.map]. rewrite app_nil_r. auto.
  - destruct (lookup_lt_is_Some_2 (circles s) i) as [c Hc]; [lia |].
    cbn [Ring.sweep]. unfold bind at 1. unfold Ring.visit, bind at 1, get.
    rewrite Hc. cbv zeta.
    rewrite (take_S_r _ _ _ Hc), List.map_app, List.filter_app.
    cbn [List.map List.filter].
    set (c' := Ring.advance delta c).
    change (alive now c') with (negb (ge (age now c') (lifeMs c'))).
    assert (Hi : (i < length (circles s))%nat) by lia.
    unfold bind at 1, modify at 1.
    destruct (ge (age now c') (lifeMs c')) eqn:G; cbn [negb].
    + unfold splice1, bind, get, modify.
      match goal with |- context [Ring.sweep now delta i ?st] =>
        destruct (IH st) as (s' & R & C & D & L1 & L2) end.
      { cbn. rewrite length_delete.
        - rewrite length_insert. lia.
        - rewrite list_lookup_insert_eq by exact Hi. eauto. }
      exists s'. split; [exact R |].
      rewrite C, D. cbn [circles set_circles surf] in *.
      rewrite take_delete_same, drop_delete_same, !app_nil_r.
      rewrite take_insert_ge by lia. rewrite drop_insert_lt by lia. auto.
    + unfold bind, modify.
      match goal with |- context [Ring.sweep now delta i ?st] =>
        destruct (IH st) as (s' & R & C & D & L1 & L2) end.
      { cbn. rewrite length_insert. lia. }
      exists s'. split; [exact R |].
      rewrite C, D.
      cbn [circles set_circles with_surf surf emit set_globalAlpha drawn] in *.
      rewrite <- !app_assoc. cbn [app].
      rewrite take_insert_ge by lia.
      rewrite (drop_S (<[i:=c']> (circles s)) c' i)
        by (apply list_lookup_insert_eq; exact Hi).
      rewrite drop_insert_lt by lia.
      rewrite rev_app_distr. cbn [rev app List.map]. auto.
Qed.

(** ** Spawning *)

Lemma random_run (h : host) (lo hi : num) (s : state) :
  random h lo hi s =
    Ok (add (mul (Fin (Math_random h (random_calls s))) (sub hi lo)) lo,
        bump_random s).
Proof. reflexivity. Qed.

Lemma bind_run {A B : Type} (m : M A) (k : A -> M B) (s s' : state) (a : A) :
  m s = Ok (a, s') -> bind m k s = k a s'.
Proof. intros E. unfold bind. rewrite E. reflexivity. Qed.

Lemma spawnCircle_pushes (k : tuning) (h : host) (s : state) :
  let r i := Fin (Math_random h (i + random_calls s)) in
  let w := innerWidth h in
  let h' := innerHeight h in
  let maxRadius := mul (Math_max w h') (Fin 0.08) in
  let minRadius := Math_max (Fin 20) (mul (Math_min w h') (Fin 0.01)) in
  let rad := add (mul (r 0%nat) (sub maxRadius minRadius)) minRadius in
  exists c : circle,
    spawnCircle k h s =
      Ok (tt, State (surf s) (devicePixelRatioScale s) (circles s ++ [c])
                    (lastSpawn s) (lastNow s) (7 + random_calls s)
                    (S (clock_calls s)) (frames_requested s)) /\
    radius c = rad /\
    x c = add (mul (r 1%nat) (sub (add w rad) (neg rad))) (neg rad) /\
    y c = add (mul (r 2%nat) (sub (add h' rad) (neg rad))) (neg rad) /\
    lifeMs c =
      add (mul (r 6%nat) (sub (snd (life_range k)) (fst (life_range k))))
          (fst (life_range k)) /\
    fadeInPortion c = Fin 0.25 /\
    fadeOutPortion c = Fin 0.25 /\
    createdAt c = performance_now h (clock_calls s).
Proof.
  intros. unfold spawnCircle.
  repeat (erewrite bind_run by apply random_run; cbv beta).
  cbv zeta.
  unfold bind, call_performance_now, get, modify, set_circles.
  cbn [surf devicePixelRatioScale circles lastSpawn lastNow random_calls
         clock_calls frames_requested bump_random].
  eexists. split; [reflexivity |].
  cbn [radius x y lifeMs fadeInPortion fadeOutPortion createdAt].
  repeat split; reflexivity.
Qed.

Lemma pushes_one_any (k : tuning) (h : host) :
  pushes_one k h (fun _ => True).
Proof.
  intros s. destruct (spawnCircle_pushes k h s) as (c & R & _).
  eexists c, _. split; [exact R |]. cbn. auto 10.
Qed.

Lemma lerp_between (r lo hi : Q) :
  0 <= r < 1 -> lo <= hi -> lo <= r * (hi + - lo) + lo <= hi.
Proof. intros Hr Hle. split; nra. Qed.

Lemma pushes_one_as_spawned (k : tuning) (h : host) (lo hi : Q) :
  life_range k = (Fin lo, Fin hi) ->
  lo <= hi ->
  (forall n : nat, 0 <= Math_random h n < 1) ->
  pushes_one k h (as_spawned lo hi).
Proof.
  intros Ek Hle Hr s.
  destruct (spawnCircle_pushes k h s) as (c & R & _ & _ & _ & El & Ei & Eo & _).
  eexists c, _. split; [exact R |]. cbn [circles surf devicePixelRatioScale
                                         lastSpawn lastNow].
  repeat (split; [reflexivity |]).
  split; [exact Ei |]. split; [exact Eo |].
  rewrite Ek in El. cbn [fst snd sub neg mul add] in El.
  eexists. split; [exact El |]. apply lerp_between; [apply Hr | exact Hle].
Qed.

Section Spawning.

Variables (k : tuning) (h : host) (P : circle -> Prop).
Hypothesis pushes : pushes_one k h P.

Lemma times_spawnCircle (n : nat) :
  forall s : state,
    exists (born : list circle) (s' : state),
      times n (spawnCircle k h) s = Ok (tt, s') /\
      circles s' = circles s ++ born /\
      length born = n /\
      Forall P born /\
      surf s' = surf s /\
      devicePixelRatioScale s' = devicePixelRatioScale s /\
      lastSpawn s' = lastSpawn s /\
      lastNow s' = lastNow s.
Proof.
  induction n as [|n IH]; intros s.
  - exists [], s. rewrite app_nil_r. repeat split; auto.
  - destruct (pushes s) as (c & s1 & R & C1 & S1 & D1 & L1 & N1 & Pc).
    cbn [times]. rewrite (bind_run _ _ _ _ _ R).
    destruct (IH s1) as (born & s' & R' & C & Len & Pb & S' & D' & L' & N').
    exists (c :: born), s'. split; [exact R' |].
    rewrite C, C1, <- app_assoc. cbn [app length].
    repeat split; try congruence. constructor; assumption.
Qed.

Lemma spawn_block_run (now : num) (s : state) :
  let r0 := Math_random h (random_calls s) in
  let r1 := Math_random h (S (random_calls s)) in
  let count :=
    if lt (Fin r0) (Fin 0.2)
    then Math_floor (add (mul (Fin r1) (sub (Fin 4) (Fin 2))) (Fin 2))
    else Fin 1 in
  exists (born : list circle) (s' : state),
    spawn_block k h now s = Ok (tt, s') /\
    circles s' = circles s ++ born /\
    Forall P born /\
    surf s' = surf s /\
    devicePixelRatioScale s' = devicePixelRatioScale s /\
    lastNow s' = lastNow s /\
    if gt (sub now (lastSpawn s)) (Fin 400)
    then lastSpawn s' = now /\ trip_count count = Some (length born)
    else born = [] /\ lastSpawn s' = lastSpawn s.
Proof.
  intros r0 r1 count. unfold spawn_block, bind at 1, get.
  destruct (gt (sub now (lastSpawn s)) (Fin 400)).
  - assert (T : exists n, trip_count count = Some n).
    { subst count. destruct (lt (Fin r0) (Fin 0.2)); cbn; eauto. }
    destruct T as [n T].
    unfold bind at 1, modify at 1. unfold bind at 1, call_Math_random at 1.
    cbn [random_calls set_lastSpawn surf devicePixelRatioScale circles
         lastSpawn lastNow clock_calls frames_requested].
    fold r0.
    assert (C : exists st0 : state,
      lastSpawn st0 = now /\ circles st0 = circles s /\
      lastNow st0 = lastNow s /\ surf st0 = surf s /\
      devicePixelRatioScale st0 = devicePixelRatioScale s /\
      bind (if lt (Fin r0) (Fin 0.2)
              then v <- random h (Fin 2) (Fin 4) ;; ret (Math_floor v)
              else ret (Fin 1))
           (fun count => for_below count (spawnCircle k h))
           (State (surf s) (devicePixelRatioScale s) (circles s) now
                  (lastNow s) (S (random_calls s)) (clock_calls s)
                  (frames_requested s))
      = times n (spawnCircle k h) st0).
    { subst count. destruct (lt (Fin r0) (Fin 0.2)).
      - erewrite bind_run; [| erewrite bind_run by apply random_run;
                               reflexivity ].
        cbn [random_calls]. fold r1. unfold for_below. rewrite T.
        eexists. repeat (split; [| try reflexivity]); reflexivity.
      - unfold bind, ret, for_below. rewrite T.
        eexists. repeat (split; [| try reflexivity]); reflexivity. }
    destruct C as (st0 & L0 & C0 & N0 & S0 & D0 & ->).
    destruct (times_spawnCircle n st0)
      as (born & s' & R & Cs & Ln & Pb & Ss & Ds & L1 & L2).
    exists born, s'. rewrite R, Cs, C0, Ss, S0, Ds, D0, L1, L2, L0, N0, Ln, T.
    auto 10.
  - exists [], s. rewrite app_nil_r. unfold ret. auto 10.
Qed.

Lemma Disk_animate_run (now : num) (s : state) :
  k = Disk.tune ->
  let r0 := Math_random h (random_calls s) in
  let r1 := Math_random h (S (random_calls s)) in
  let count :=
    if lt (Fin r0) (Fin 0.2)
    then Math_floor (add (mul (Fin r1) (sub (Fin 4) (Fin 2))) (Fin 2))
    else Fin 1 in
  exists (born : list circle) (s' : state),
    exec (Disk.animate h now) s = Ok s' /\
    circles s' = List.filter (alive now) (circles s ++ born) /\
    Forall P born /\
    drawn (surf s') =
      drawn (surf s) ++
      clearRect (Fin 0) (Fin 0)
                (div (width (surf s)) (devicePixelRatioScale s))
                (div (height (surf s)) (devicePixelRatioScale s)) ::
      List.map (fun c => Disk.paint (mul (Disk.opacity now c) (Fin 0.25)) c)
               (rev (circles s')) /\
    globalAlpha (surf s') = Fin 1 /\
    if gt (sub now (lastSpawn s)) (Fin 400)
    then lastSpawn s' = now /\ trip_count count = Some (length born)
    else born = [] /\ lastSpawn s' = lastSpawn s.
Proof.
  intros Ek r0 r1 count.
  unfold exec, Disk.animate.
  unfold bind at 1, requestAnimationFrame, modify at 1.
  unfold bind at 1, get at 1. cbv zeta.
  unfold bind at 1, modify at 1. rewrite <- Ek.
  match goal with |- context [bind (spawn_block _ _ _) _ ?st] =>
    destruct (spawn_block_run now st)
      as (born & s1 & R & C & Pb & Sf & _ & _ & Sp);
    rewrite (bind_run _ _ _ _ _ R) end.
  cbn [circles lastSpawn random_calls with_surf surf devicePixelRatioScale
       width height emit drawn] in C, Sf, Sp |- *.
  fold r0 r1 count in Sp.
  unfold bind at 1, get at 1.
  destruct (Disk_sweep_run now (length (circles s1)) s1)
    as (s2 & R2 & C2 & D2 & L2); [lia |].
  rewrite (bind_run _ _ _ _ _ R2). unfold modify.
  exists born, (with_surf (set_globalAlpha (Fin 1)) s2).
  split; [reflexivity |].
  cbn [circles lastSpawn with_surf surf set_globalAlpha drawn globalAlpha].
  rewrite firstn_all, drop_all, app_nil_r in C2. rewrite firstn_all in D2.
  rewrite C2, D2, L2, Sf, C. cbn [drawn emit]. rewrite <- app_assoc.
  auto 10.
Qed.

Lemma Ring_animate_run (now : num) (s : state) :
  k = Ring.tune ->
  let r0 := Math_random h (random_calls s) in
  let r1 := Math_random h (S (random_calls s)) in
  let count :=
    if lt (Fin r0) (Fin 0.2)
    then Math_floor (add (mul (Fin r1) (sub (Fin 4) (Fin 2))) (Fin 2))
    else Fin 1 in
  let delta := Ring.frame_delta now (lastNow s) in
  exists (born : list circle) (s' : state),
    exec (Ring.animate h now) s = Ok s' /\
    circles s' =
      List.filter (alive now)
                  (List.map (Ring.advance delta) (circles s ++ born)) /\
    Forall P born /\
    drawn (surf s') =
      drawn (surf s) ++
      clearRect (Fin 0) (Fin 0)
                (div (width (surf s)) (devicePixelRatioScale s))
                (div (height (surf s)) (devicePixelRatioScale s)) ::
      List.map (fun c => Ring.paint (mul (Ring.opacity now c) (Fin 0.22)) c)
               (rev (circles s')) /\
    globalAlpha (surf s') = Fin 1 /\
    lastNow s' = now /\
    if gt (sub now (lastSpawn s)) (Fin 400)
    then lastSpawn s' = now /\ trip_count count = Some (length born)
    else born = [] /\ lastSpawn s' = lastSpawn s.
Proof.
  intros Ek r0 r1 count delta.
  unfold exec, Ring.animate.
  unfold bind at 1, requestAnimationFrame, modify at 1.
  unfold bind at 1, get at 1. cbv zeta.
  unfold bind at 1, modify at 1.
  unfold bind at 1, modify at 1. rewrite <- Ek.
  match goal with |- context [bind (spawn_block _ _ _) _ ?st] =>
    destruct (spawn_block_run now st)
      as (born & s1 & R & C & Pb & Sf & _ & N & Sp);
    rewrite (bind_run _ _ _ _ _ R) end.
  cbn [circles lastSpawn lastNow random_calls with_surf set_lastNow surf
       devicePixelRatioScale width height emit drawn] in C, Sf, N, Sp |- *.
  fold r0 r1 count in Sp. fold delta.
  unfold bind at 1, get at 1.
  destruct (Ring_sweep_run now delta (length (circles s1)) s1)
    as (s2 & R2 & C2 & D2 & L2 & N2); [lia |].
  rewrite (bind_run _ _ _ _ _ R2). unfold modify.
  exists born, (with_surf (set_globalAlpha (Fin 1)) s2).
  split; [reflexivity |].
  cbn [circles lastSpawn lastNow with_surf surf set_globalAlpha drawn
       globalAlpha].
  rewrite firstn_all, drop_all, app_nil_r in C2. rewrite firstn_all in D2.
  rewrite C2, D2, L2, N2, N, Sf, C. cbn [drawn emit]. rewrite <- app_assoc.
  auto 10.
Qed.

End Spawning.

(** ** Expiry *)


(** ** spawnCircle *)

Lemma Math_max_Fin (a b : Q) : Math_max (Fin a) (Fin b) = Fin (Qmax a b).
Proof.
  unfold Math_max, lt, Qmax, GenericMinMax.gmax.
  destruct (Qltb a b) eqn:E.
  - apply Qltb_lt in E. destruct (Qcompare_spec a b); (reflexivity || lra).
  - apply Qltb_ge in E. destruct (Qcompare_spec a b); (reflexivity || lra).
Qed.

Lemma Math_min_Fin (a b : Q) : Math_min (Fin a) (Fin b) = Fin (Qmin a b).
Proof.
  unfold Math_min, lt, Qmin, GenericMinMax.gmin.
  destruct (Qltb b a) eqn:E.
  - apply Qltb_lt in E. destruct (Qcompare_spec a b); (reflexivity || lra).
  - apply Qltb_ge in E. destruct (Qcompare_spec a b); (reflexivity || lra).
Qed.

(** The radius [spawnCircle] draws, over rational viewport sizes. *)
Lemma spawnCircle_geometry (k : tuning) (h : host) (s : state) (W H : Q) :
  innerWidth h = Fin W ->
  innerHeight h = Fin H ->
  let lo := Qmax 20 (Qmin W H * 0.01) in
  let hi := Qmax W H * 0.08 in
  let r := Math_random h (random_calls s) * (hi + - lo) + lo in
  exists (c : circle) (s' : state),
    exec (spawnCircle k h) s = Ok s' /\
    circles s' = circles s ++ [c] /\
    radius c = Fin r /\
    x c = Fin (Math_random h (1 + random_calls s) * (W + r + - - r) + - r) /\
    y c = Fin (Math_random h (2 + random_calls s) * (H + r + - - r) + - r).
Proof.
  intros EW EH lo hi r.
  destruct (spawnCircle_pushes k h s) as (c & R & Er & Ex & Ey & _).
  cbv zeta in Er, Ex, Ey.
  rewrite EW, EH in Er, Ex, Ey.
  rewrite Math_max_Fin, Math_min_Fin in Er, Ex, Ey.
  cbn [mul] in Er, Ex, Ey. rewrite Math_max_Fin in Er, Ex, Ey.
  cbn [add mul sub neg Nat.add] in Er, Ex, Ey.
  eexists c, _. unfold exec. rewrite R.
  split; [reflexivity |]. split; [reflexivity |].
  split; [exact Er |]. split; [exact Ex | exact Ey].
Qed.

Lemma lerp_nonneg (r lo hi : Q) :
  0 <= r < 1 -> 0 <= lo -> 0 <= hi -> 0 <= r * (hi + - lo) + lo.
Proof.
  intros Hr Hlo Hhi.
  assert (E : r * (hi + - lo) + lo == (1 - r) * lo + r * hi) by ring.
  rewrite E. nra.
Qed.

(** C5.  Over a finite viewport W by H, with the draws of [Math.random()]
    in [0, 1) and minRadius = max(20, min(W,H) * 0.01) not above
    maxRadius = max(W,H) * 0.08, [spawnCircle] returns having pushed one
    circle whose radius lies in [minRadius, maxRadius]; on a 1000 by 800
    viewport that is [20, 80]. *)
Theorem spawnCircle_radius_range
    (k : tuning) (h : host) (s : state) (W H : Q) :
  let minRadius := Qmax 20 (Qmin W H * 0.01) in
  let maxRadius := Qmax W H * 0.08 in
  innerWidth h = Fin W ->
  innerHeight h = Fin H ->
  (forall n : nat, 0 <= Math_random h n < 1) ->
  minRadius <= maxRadius ->
  exists (c : circle) (s' : state) (r : Q),
    exec (spawnCircle k h) s = Ok s' /\
    circles s' = circles s ++ [c] /\
    radius c = Fin r /\
    minRadius <= r <= maxRadius /\
    (W == 1000 -> H == 800 -> 20 <= r <= 80).
Proof.
  intros lo hi EW EH Hr Hle.
  destruct (spawnCircle_geometry k h s W H EW EH) as (c & s' & R & C & Er & _).
  cbv zeta in Er. fold lo hi in Er.
  eexists c, s', _. split; [exact R |]. split; [exact C |].
  split; [exact Er |].
  pose proof (lerp_between _ lo hi (Hr (random_calls s)) Hle) as B.
  split; [exact B |].
  intros HW HH.
  assert (Elo : lo == 20).
  { subst lo. destruct (Q.max_spec 20 (Qmin W H * 0.01)) as [[A ->]|[A ->]];
      [| reflexivity].
    destruct (Q.min_spec W H) as [[A' E]|[A' E]]; rewrite E in A; lra. }
  assert (Ehi : hi == 80).
  { subst hi. destruct (Q.max_spec W H) as [[A ->]|[A ->]]; lra. }
  lra.
Qed.

(** C6.  Over a viewport of finite, non-negative width W and height H,
    with the draws of [Math.random()] in [0, 1), the circle [spawnCircle]
    pushes has x in [-radius, W + radius] and y in [-radius, H + radius],
    for the radius it drew in the same call. *)
Theorem spawnCircle_position_range
    (k : tuning) (h : host) (s : state) (W H : Q) :
  innerWidth h = Fin W ->
  innerHeight h = Fin H ->
  0 <= W ->
  0 <= H ->
  (forall n : nat, 0 <= Math_random h n < 1) ->
  exists (c : circle) (s' : state) (r px py : Q),
    exec (spawnCircle k h) s = Ok s' /\
    circles s' = circles s ++ [c] /\
    radius c = Fin r /\
    x c = Fin px /\
    y c = Fin py /\
    - r <= px <= W + r /\
    - r <= py <= H + r.
Proof.
  intros EW EH HW HH Hr.
  destruct (spawnCircle_geometry k h s W H EW EH)
    as (c & s' & R & C & Er & Ex & Ey).
  cbv zeta in Er, Ex, Ey.
  set (lo := Qmax 20 (Qmin W H * 0.01)) in *.
  set (hi := Qmax W H * 0.08) in *.
  set (r := Math_random h (random_calls s) * (hi + - lo) + lo) in *.
  eexists c, s', r, _, _. split; [exact R |]. split; [exact C |].
  split; [exact Er |]. split; [exact Ex |]. split; [exact Ey |].
  assert (Hlo : 0 <= lo).
  { pose proof (Q.le_max_l 20 (Qmin W H * 0.01)). subst lo. lra. }
  assert (Hhi : 0 <= hi).
  { pose proof (Q.le_max_l W H). subst hi. lra. }
  assert (Hrad : 0 <= r) by (apply lerp_nonneg; auto).
  pose proof (Hr (1 + random_calls s)%nat) as H1.
  pose proof (Hr (2 + random_calls s)%nat) as H2.
  split; split; nra.
Qed.

(** ** Opacity *)

Lemma div_Fin_pos (a b : Q) : 0 < b -> div (Fin a) (Fin b) = Fin (a / b).
Proof.
  intros Hb. unfold div. destruct (Qeq_bool b 0) eqn:E; [| reflexivity].
  apply Qeq_bool_iff in E. lra.
Qed.

Lemma Qdiv_unit (a b : Q) : 0 <= a -> a < b -> 0 <= a / b < 1.
Proof.
  intros Ha Hab. assert (Hb : 0 < b) by lra. split.
  - apply Qle_shift_div_l; [exact Hb | lra].
  - apply Qlt_shift_div_r; [exact Hb | lra].
Qed.

Lemma clamp_unit (v : Q) : 0 <= v <= 1 -> Ring.clamp (Fin v) =n= Fin v.
Proof.
  intros [H0 H1]. unfold Ring.clamp. cbn [Number_isFinite negb].
  unfold Math_min. cbn [lt].
  assert (E1 : Qltb 1 v = false) by (apply Qltb_ge; exact H1).
  rewrite E1. unfold Math_max. cbn [lt].
  destruct (Qltb 0 v) eqn:E0; cbn [num_eq].
  - reflexivity.
  - apply Qltb_ge in E0. lra.
Qed.

(** The first copy's opacity is in [0, 1] whatever the circle holds. *)
Lemma Ring_clamp_between (alpha : num) :
  between (Fin 0) (Fin 1) (Ring.clamp alpha).
Proof.
  unfold Ring.clamp.
  destruct alpha as [| | |v]; cbn [Number_isFinite negb];
    try (split; reflexivity).
  unfold Math_min. cbn [lt].
  destruct (Qltb 1 v) eqn:E1; [split; reflexivity |].
  unfold Math_max. cbn [lt].
  destruct (Qltb 0 v) eqn:E0; [| split; reflexivity].
  apply Qltb_ge in E1. apply Qltb_lt in E0.
  apply between_Fin. lra.
Qed.

Lemma Ring_opacity_between (now : num) (c : circle) :
  between (Fin 0) (Fin 1) (Ring.opacity now c).
Proof. apply Ring_clamp_between. Qed.

Lemma fade_cases (t fi fo : Q) (c : circle) :
  fadeInPortion c = Fin fi ->
  fadeOutPortion c = Fin fo ->
  fi + fo <= 1 ->
  0 < fi ->
  0 < fo ->
  (t < fi -> fade (Fin t) c = Fin (t / fi)) /\
  (1 - fo < t -> fade (Fin t) c = Fin ((1 - t) / fo)) /\
  (fi <= t <= 1 - fo -> fade (Fin t) c = Fin 1).
Proof.
  intros Ei Eo Hsum Hi Ho. unfold fade, gt. rewrite Ei, Eo.
  cbn [sub neg add lt].
  split; [| split].
  - intros H. apply Qltb_lt in H. rewrite H. apply div_Fin_pos. exact Hi.
  - intros H.
    assert (E1 : Qltb t fi = false) by (apply Qltb_ge; lra).
    assert (E2 : Qltb (1 + - fo) t = true) by (apply Qltb_lt; lra).
    rewrite E1, E2. apply div_Fin_pos. exact Ho.
  - intros [H1 H2].
    assert (E1 : Qltb t fi = false) by (apply Qltb_ge; lra).
    assert (E2 : Qltb (1 + - fo) t = false) by (apply Qltb_ge; lra).
    rewrite E1, E2. reflexivity.
Qed.

(** C3.  For a circle of finite age in [0, lifetime), with positive fade
    portions that sum to at most 1, both copies compute, before the
    dimming factor, t / fadeIn when t < fadeIn, (1 - t) / fadeOut when
    t > 1 - fadeOut and 1 otherwise, where t = age / lifetime (the clamp of
    the first copy changes nothing there).  On doubles, for a lifetime of
    10000 and fade portions 0.25, both copies compute 0.4 at age 1000, 1 at
    age 5000, and at age 9500 the double 0.20000000000000018, which lies
    between 0.2 and 0.2000000000000002: the subtraction 1 - 0.95 is
    rounded before the division. *)
Theorem fade_profile :
  (forall (now : num) (c : circle) (a l fi fo : Q),
     age now c = Fin a ->
     lifeMs c = Fin l ->
     fadeInPortion c = Fin fi ->
     fadeOutPortion c = Fin fo ->
     0 <= a < l ->
     0 < fi ->
     0 < fo ->
     fi + fo <= 1 ->
     let t := a / l in
     (t < fi ->
        Ring.opacity now c =n= Fin (t / fi) /\
        Disk.opacity now c =n= Fin (t / fi)) /\
     (1 - fo < t ->
        Ring.opacity now c =n= Fin ((1 - t) / fo) /\
        Disk.opacity now c =n= Fin ((1 - t) / fo)) /\
     (fi <= t <= 1 - fo ->
        Ring.opacity now c =n= Fin 1 /\ Disk.opacity now c =n= Fin 1)) /\
  (let c := Double.lone (Double.of_Z 0) (Double.of_Z 10000) in
   let late := S754_finite false 7205759403792800 (-55) in
   Double.Ring.opacity (Double.of_Z 1000) c = Double.dec 4 1 /\
   Double.Disk.opacity (Double.of_Z 1000) c = Double.dec 4 1 /\
   Double.Ring.opacity (Double.of_Z 5000) c = Double.of_Z 1 /\
   Double.Disk.opacity (Double.of_Z 5000) c = Double.of_Z 1 /\
   Double.Ring.opacity (Double.of_Z 9500) c = late /\
   Double.Disk.opacity (Double.of_Z 9500) c = late /\
   Double.lt (Double.dec 2 1) late = true /\
   Double.lt late (Double.dec 2000000000000002 16) = true).
Proof.
  split.
  - intros now c a l fi fo Ea El Ei Eo Ha Hi Ho Hsum t.
    assert (Hl : 0 < l) by lra.
    destruct (Qdiv_unit a l) as [T0 T1]; [lra | lra |]. fold t in T0, T1.
    destruct (fade_cases t fi fo c Ei Eo Hsum Hi Ho) as (F1 & F2 & F3).
    unfold Ring.opacity, Disk.opacity. rewrite Ea, El.
    rewrite (div_Fin_pos a l Hl). fold t.
    split; [| split]; intros Hc; split.
    + rewrite (F1 Hc). apply clamp_unit.
      destruct (Qdiv_unit t fi); [lra | lra |]. lra.
    + rewrite (F1 Hc). cbn. reflexivity.
    + rewrite (F2 Hc). apply clamp_unit.
      destruct (Qdiv_unit (1 - t) fo); [lra | lra |]. lra.
    + rewrite (F2 Hc). cbn. reflexivity.
    + rewrite (F3 Hc). apply clamp_unit. lra.
    + rewrite (F3 Hc). cbn. reflexivity.
  - vm_compute. repeat split; reflexivity.
Qed.

(** ** What every frame keeps true *)

Lemma as_spawned_advance (lo hi : Q) (delta : num) (c : circle) :
  as_spawned lo hi c -> as_spawned lo hi (Ring.advance delta c).
Proof. intros H. exact H. Qed.

Lemma Forall_filter_keeps {A : Type} (P : A -> Prop) (f : A -> bool)
    (l : list A) :
  Forall P l -> Forall P (List.filter f l).
Proof.
  intros H. apply List.Forall_forall. intros a Ha.
  apply List.filter_In in Ha. destruct Ha as [Ha _].
  rewrite List.Forall_forall in H. apply H, Ha.
Qed.

(** The circles of the first copy stay as [spawnCircle] makes them. *)
Lemma Ring_animate_keeps_shape (h : host) (now : num) (s : state) :
  (forall n : nat, 0 <= Math_random h n < 1) ->
  Forall (as_spawned 9000 14000) (circles s) ->
  exists s' : state,
    exec (Ring.animate h now) s = Ok s' /\
    Forall (as_spawned 9000 14000) (circles s').
Proof.
  intros Hr Hs.
  assert (Hp : pushes_one Ring.tune h (as_spawned 9000 14000)).
  { apply pushes_one_as_spawned; [reflexivity | lra | exact Hr]. }
  destruct (Ring_animate_run Ring.tune h _ Hp now s eq_refl)
    as (born & s' & R & C & Pb & _).
  exists s'. split; [exact R |]. rewrite C.
  apply Forall_filter_keeps.
  apply List.Forall_forall. intros c Hc.
  apply List.in_map_iff in Hc. destruct Hc as (c0 & <- & Hc0).
  apply as_spawned_advance.
  apply List.in_app_or in Hc0. rewrite List.Forall_forall in Hs, Pb.
  destruct Hc0; auto.
Qed.

(** So do the circles of the second copy. *)
Lemma Disk_animate_keeps_shape (h : host) (now : num) (s : state) :
  (forall n : nat, 0 <= Math_random h n < 1) ->
  Forall (as_spawned 6000 12000) (circles s) ->
  exists s' : state,
    exec (Disk.animate h now) s = Ok s' /\
    Forall (as_spawned 6000 12000) (circles s').
Proof.
  intros Hr Hs.
  assert (Hp : pushes_one Disk.tune h (as_spawned 6000 12000)).
  { apply pushes_one_as_spawned; [reflexivity | lra | exact Hr]. }
  destruct (Disk_animate_run Disk.tune h _ Hp now s eq_refl)
    as (born & s' & R & C & Pb & _).
  exists s'. split; [exact R |]. rewrite C.
  apply Forall_filter_keeps.
  apply List.Forall_forall. intros c Hc.
  apply List.in_app_or in Hc. rewrite List.Forall_forall in Hs, Pb.
  destruct Hc; auto.
Qed.

Lemma dimmed_between (p : num) :
  between (Fin 0) (Fin 1) p -> between (Fin 0) (Fin 0.22) (mul p (Fin 0.22)).
Proof.
  destruct p as [| | |v]; intros [L U]; try discriminate.
  apply le_Fin in L, U. cbn [mul]. apply between_Fin. lra.
Qed.

(** X15.  Whatever the circles hold, a frame of the first copy clears the
    surface and then fills one arc per circle it keeps, last circle first,
    each under an opacity in [0, 0.22]; it ends with [globalAlpha] at 1. *)
Lemma Ring_animate_draws (h : host) (now : num) (s : state) :
  exists (s' : state) (alphas : list num),
    exec (Ring.animate h now) s = Ok s' /\
    drawn (surf s') =
      drawn (surf s) ++
      clearRect (Fin 0) (Fin 0)
                (div (width (surf s)) (devicePixelRatioScale s))
                (div (height (surf s)) (devicePixelRatioScale s)) ::
      List.map (fun ac => Ring.paint (fst ac) (snd ac))
               (List.combine alphas (rev (circles s'))) /\
    length alphas = length (circles s') /\
    Forall (between (Fin 0) (Fin 0.22)) alphas /\
    globalAlpha (surf s') = Fin 1.
Proof.
  destruct (Ring_animate_run Ring.tune h _ (pushes_one_any _ _) now s eq_refl)
    as (born & s' & R & _ & _ & D & G & _).
  exists s',
    (List.map (fun c => mul (Ring.opacity now c) (Fin 0.22)) (rev (circles s'))).
  split; [exact R |]. split; [| split; [| split; [| exact G]]].
  - rewrite D. f_equal. f_equal.
    generalize (rev (circles s')). intros l.
    induction l as [|c l IH]; [reflexivity |].
    cbn [List.map List.combine fst snd]. f_equal. exact IH.
  - rewrite List.length_map, List.length_rev. reflexivity.
  - apply List.Forall_forall. intros a Ha.
    apply List.in_map_iff in Ha. destruct Ha as (c & <- & _).
    apply dimmed_between, Ring_opacity_between.
Qed.

(** ** The frame delta *)

(** The delta of lines 89-91 is in [0, 50] for finite timestamps. *)
Lemma frame_delta_between (a b : Q) :
  between (Fin 0) (Fin 50) (Ring.frame_delta (Fin a) (Fin b)).
Proof.
  unfold Ring.frame_delta. cbn [sub neg add].
  unfold Math_max at 1. cbn [lt].
  destruct (Qltb (a + - b) 0) eqn:E0.
  - split; reflexivity.
  - unfold Math_min. cbn [lt].
    destruct (Qltb 50 (a + - b)) eqn:E1; [split; reflexivity |].
    apply Qltb_ge in E0, E1. apply between_Fin. lra.
Qed.

(** ** The code at concrete inputs *)

(** C4.  The first frame of the second copy on a fresh 1000 by 800 page, at
    1000 ms with the clock at 1000.5 ms inside [spawnCircle]: the circle it
    spawns has age -0.5 ms, its opacity before the dimming factor is
    -1/4500, below 0, and the frame fills it with [globalAlpha] assigned
    -1/18000.  The first copy's opacity of the same circle is in [0, 1]. *)
Theorem disk_opacity_unclamped :
  exists (c : circle) (s' : state) (a : num) (g : gradient),
    exec (resizeCanvas calm_host ;; Disk.animate calm_host (Fin 1000)) fresh
      = Ok s' /\
    circles s' = [c] /\
    age (Fin 1000) c =n= Fin (-0.5) /\
    Disk.opacity (Fin 1000) c =n= Fin (-1 # 4500) /\
    le (Fin 0) (Disk.opacity (Fin 1000) c) = false /\
    last (drawn (surf s')) = Some (fillArc a g (x c) (y c) (radius c)) /\
    a =n= Fin (-1 # 18000) /\
    between (Fin 0) (Fin 1) (Ring.opacity (Fin 1000) c).
Proof.
  set (r := exec (resizeCanvas calm_host ;; Disk.animate calm_host (Fin 1000))
                 fresh).
  vm_compute in r.
  match eval unfold r in r with
  | Ok ?s => match eval cbv [circles] in (circles s) with
             | [?c] => exists c, s
             end
  end.
  eexists _, _. subst r.
  split; [reflexivity |]. split; [reflexivity |].
  split; [vm_compute; reflexivity |].
  split; [vm_compute; reflexivity |].
  split; [vm_compute; reflexivity |].
  split; [cbn; reflexivity |].
  split; [vm_compute; reflexivity |].
  apply Ring_opacity_between.
Qed.

(** C2.  In the first copy, timestamps 200 ms apart give a delta of 50 ms,
    and the delta is added to [createdAt].  Over the frames at 1000 ms and
    1200 ms the age the loop computes goes from 950 ms to 1100 ms: it grows
    by the 150 ms the clamp cut off.  Over the frames at 1000 ms and
    1016 ms it stays at 950 ms. *)
Theorem delta_advances_createdAt :
  Ring.frame_delta (Fin 1200) (Fin 1000) = Fin 50 /\
  exists (c1 c2 c3 : circle) (s1 s2 s3 : state),
    exec (Ring.animate calm_host (Fin 1000)) mid_run = Ok s1 /\
    circles s1 = [c1] /\
    age (Fin 1000) c1 =n= Fin 950 /\
    exec (Ring.animate calm_host (Fin 1200)) s1 = Ok s2 /\
    circles s2 = [c2] /\
    createdAt c2 =n= add (createdAt c1) (Fin 50) /\
    age (Fin 1200) c2 =n= Fin 1100 /\
    exec (Ring.animate calm_host (Fin 1016)) s1 = Ok s3 /\
    circles s3 = [c3] /\
    age (Fin 1016) c3 =n= Fin 950.
Proof.
  split; [reflexivity |].
  set (r1 := exec (Ring.animate calm_host (Fin 1000)) mid_run).
  vm_compute in r1.
  match eval unfold r1 in r1 with
  | Ok ?s =>
      pose (s1 := s);
      set (r2 := exec (Ring.animate calm_host (Fin 1200)) s1);
      set (r3 := exec (Ring.animate calm_host (Fin 1016)) s1)
  end.
  vm_compute in r2. vm_compute in r3.
  match eval unfold r2 in r2 with
  | Ok ?s2 =>
    match eval unfold r3 in r3 with
    | Ok ?s3 =>
        match eval cbv [circles s1] in (circles s1, circles s2, circles s3) with
        | ([?c1], [?c2], [?c3]) => exists c1, c2, c3, s1, s2, s3
        end
    end
  end.
  repeat split; try reflexivity; vm_compute; reflexivity.
Qed.

(** C5, as stated, fails on a 100 by 100 viewport: minRadius is 20,
    maxRadius is 8, and a draw of 0.5 gives the radius 14, which is neither
    at least 20 nor at most 8. *)
Lemma spawnCircle_radius_small_viewport :
  exists (c : circle) (s' : state),
    exec (spawnCircle Ring.tune small_host) fresh = Ok s' /\
    circles s' = [c] /\
    Math_max (Fin 20) (mul (Math_min (Fin 100) (Fin 100)) (Fin 0.01)) =n= Fin 20 /\
    mul (Math_max (Fin 100) (Fin 100)) (Fin 0.08) =n= Fin 8 /\
    radius c =n= Fin 14 /\
    le (Fin 20) (radius c) = false /\
    le (radius c) (Fin 8) = false.
Proof.
  set (r := exec (spawnCircle Ring.tune small_host) fresh).
  vm_compute in r.
  match eval unfold r in r with
  | Ok ?s => match eval cbv [circles] in (circles s) with
             | [?c] => exists c, s
             end
  end.
  repeat split; try reflexivity; vm_compute; reflexivity.
Qed.

(** ** The theorems at concrete inputs *)

(** The draws of the calm page are in [0, 1). *)
Lemma calm_draws (n : nat) : 0 <= Math_random calm_host n < 1.
Proof. cbn. lra. Defined.

(** The fade-in branch at age 1000 of a 10000 ms lifetime. *)
Lemma fade_profile_witness :
  Ring.opacity (Fin 1000) (lone (Fin 0) (Fin 10000))
    =n= Fin (1000 / 10000 / 0.25) /\
  Disk.opacity (Fin 1000) (lone (Fin 0) (Fin 10000))
    =n= Fin (1000 / 10000 / 0.25).
Proof.
  refine (proj1 (proj1 fade_profile (Fin 1000) (lone (Fin 0) (Fin 10000))
                   1000 10000 0.25 0.25 eq_refl eq_refl eq_refl eq_refl
                   _ _ _ _) _);
    try lra.
  reflexivity.
Defined.

(** The radius bound on the 1000 by 800 page. *)
Lemma spawnCircle_radius_range_witness :
  exists (c : circle) (s' : state) (r : Q),
    exec (spawnCircle Ring.tune calm_host) fresh = Ok s' /\
    circles s' = circles fresh ++ [c] /\
    radius c = Fin r /\
    Qmax 20 (Qmin 1000 800 * 0.01) <= r <= Qmax 1000 800 * 0.08 /\
    (1000 == 1000 -> 800 == 800 -> 20 <= r <= 80).
Proof.
  apply (spawnCircle_radius_range Ring.tune calm_host fresh 1000 800).
  - reflexivity.
  - reflexivity.
  - exact calm_draws.
  - vm_compute. discriminate.
Defined.

(** The position bound on the 1000 by 800 page. *)
Lemma spawnCircle_position_range_witness :
  exists (c : circle) (s' : state) (r px py : Q),
    exec (spawnCircle Disk.tune calm_host) fresh = Ok s' /\
    circles s' = circles fresh ++ [c] /\
    radius c = Fin r /\
    x c = Fin px /\
    y c = Fin py /\
    - r <= px <= 1000 + r /\
    - r <= py <= 800 + r.
Proof.
  apply (spawnCircle_position_range Disk.tune calm_host fresh 1000 800).
  - reflexivity.
  - reflexivity.
  - lra.
  - lra.
  - exact calm_draws.
Defined.

(** * Further properties of the code *)

(** ** random and spawnCircle *)

(** X1.  [random(min, max)] over finite bounds whose difference stays
    within the range of a double, with the draw it consumes in [0, 1),
    returns a value between the bounds, both included (by rounding the
    result can reach [max]), and [min] itself when the bounds are equal;
    it leaves the state as it was but for the one draw. *)
Theorem random_stays_in_range (h : host) (lo hi : Q) (s : state) :
  - (2 ^ 1023) <= hi - lo <= 2 ^ 1023 ->
  0 <= Math_random h (random_calls s) < 1 ->
  exists v : Q,
    random h (Fin lo) (Fin hi) s = Ok (Fin v, bump_random s) /\
    Qmin lo hi <= v <= Qmax lo hi /\
    (lo == hi -> v == lo).
Proof.
  intros _ Hr. rewrite random_run. cbn [sub neg mul add].
  eexists. split; [reflexivity |].
  set (r := Math_random h (random_calls s)) in *.
  split.
  - destruct (Q.min_spec lo hi) as [[A ->]|[A ->]];
      destruct (Q.max_spec lo hi) as [[B ->]|[B ->]]; split; nra.
  - intros Hb. rewrite Hb. ring.
Qed.

Lemma random_stays_in_range_witness :
  exists v : Q,
    random calm_host (Fin 2) (Fin 4) fresh = Ok (Fin v, bump_random fresh) /\
    Qmin 2 4 <= v <= Qmax 2 4 /\
    (2 == 4 -> v == 2).
Proof.
  apply (random_stays_in_range calm_host 2 4 fresh).
  - vm_compute. split; discriminate.
  - cbn. lra.
Defined.

(** X2.  Over a finite viewport of non-negative width and height, with the
    draws in [0, 1), the radius [spawnCircle] draws is strictly positive,
    also where minRadius exceeds maxRadius; it is at least 20 as soon as
    the longer side is at least 250. *)
Theorem spawnCircle_radius_positive
    (k : tuning) (h : host) (s : state) (W H : Q) :
  innerWidth h = Fin W ->
  innerHeight h = Fin H ->
  0 <= W ->
  0 <= H ->
  (forall n : nat, 0 <= Math_random h n < 1) ->
  exists (c : circle) (s' : state) (r : Q),
    exec (spawnCircle k h) s = Ok s' /\
    circles s' = circles s ++ [c] /\
    radius c = Fin r /\
    0 < r /\
    (250 <= Qmax W H -> 20 <= r).
Proof.
  intros EW EH HW HH Hr.
  destruct (spawnCircle_geometry k h s W H EW EH) as (c & s' & R & C & Er & _).
  cbv zeta in Er.
  set (lo := Qmax 20 (Qmin W H * 0.01)) in Er.
  set (hi := Qmax W H * 0.08) in Er.
  eexists c, s', _. split; [exact R |]. split; [exact C |].
  split; [exact Er |].
  pose proof (Hr (random_calls s)) as Hd.
  set (r := Math_random h (random_calls s)) in *.
  assert (Hlo : 20 <= lo) by (subst lo; apply Q.le_max_l).
  assert (Hhi : 0 <= hi).
  { pose proof (Q.le_max_l W H). subst hi. lra. }
  assert (E : r * (hi + - lo) + lo == (1 - r) * lo + r * hi) by ring.
  split; [rewrite E; nra |].
  intros Hbig. assert (Hhi' : 20 <= hi) by (subst hi; lra).
  rewrite E. nra.
Qed.

Lemma spawnCircle_radius_positive_witness :
  exists (c : circle) (s' : state) (r : Q),
    exec (spawnCircle Disk.tune small_host) fresh = Ok s' /\
    circles s' = circles fresh ++ [c] /\
    radius c = Fin r /\
    0 < r /\
    (250 <= Qmax 100 100 -> 20 <= r).
Proof.
  apply (spawnCircle_radius_positive Disk.tune small_host fresh 100 100).
  - reflexivity.
  - reflexivity.
  - lra.
  - lra.
  - intros n. cbn. lra.
Defined.

Lemma Qfloor_between (v : Q) (lo hi : Z) :
  inject_Z lo <= v < inject_Z hi -> (lo <= Qfloor v < hi)%Z.
Proof.
  intros [L U]. split.
  - apply Qfloor_resp_le in L. rewrite Qfloor_Z in L. exact L.
  - rewrite Zlt_Qlt. apply Qle_lt_trans with v; [apply Qfloor_le | exact U].
Qed.

Ltac floor_range :=
  match goal with
  | |- (?lo <= Qfloor ?v <= ?hi)%Z =>
      let B := fresh "B" in
      let top := eval compute in (hi + 1)%Z in
      assert (B : (lo <= Qfloor v < top)%Z)
        by (apply Qfloor_between; unfold inject_Z; lra);
      lia
  end.

Lemma spawnCircle_colour (k : tuning) (h : host) (s : state) :
  let r i := Fin (Math_random h (i + random_calls s)) in
  let draw i range := add (mul (r i) (sub (snd range) (fst range))) (fst range) in
  exists c : circle,
    spawnCircle k h s =
      Ok (tt, State (surf s) (devicePixelRatioScale s) (circles s ++ [c])
                    (lastSpawn s) (lastNow s) (7 + random_calls s)
                    (S (clock_calls s)) (frames_requested s)) /\
    fill_color c =
      hsla (Math_floor (draw 3%nat (Fin 0, Fin 360)))
           (Math_floor (draw 4%nat (sat_range k)))
           (Math_floor (draw 5%nat (light_range k)))
           (Fin 1) /\
    lifeMs c = draw 6%nat (life_range k) /\
    fadeInPortion c = Fin 0.25 /\
    fadeOutPortion c = Fin 0.25 /\
    createdAt c = performance_now h (clock_calls s).
Proof.
  intros. unfold spawnCircle.
  repeat (erewrite bind_run by apply random_run; cbv beta).
  cbv zeta.
  unfold bind, call_performance_now, get, modify, set_circles.
  cbn [surf devicePixelRatioScale circles lastSpawn lastNow random_calls
         clock_calls frames_requested bump_random].
  eexists. split; [reflexivity |].
  cbn [fill_color lifeMs fadeInPortion fadeOutPortion createdAt].
  repeat split; reflexivity.
Qed.

(** X3.  With the draws in [0, 1), the circle [spawnCircle] pushes is fully
    opaque, with whole-number hue in 0..359, and in the first copy whole
    saturation in 30..45, lightness in 80..92 and a lifetime in
    [9000, 14000] ms; in the second copy saturation in 60..85, lightness in
    55..75 and a lifetime in [6000, 12000] ms (the upper ends are reached
    only by rounding).  Its fade portions are 0.25 and its [createdAt] is
    the reading of [performance.now()]. *)
Theorem spawnCircle_colour_and_lifetime (h : host) (s : state) :
  (forall n : nat, 0 <= Math_random h n < 1) ->
  (exists (c : circle) (s' : state) (hue sat light : Z) (life : Q),
     exec (spawnCircle Ring.tune h) s = Ok s' /\
     circles s' = circles s ++ [c] /\
     fill_color c =
       hsla (Fin (inject_Z hue)) (Fin (inject_Z sat)) (Fin (inject_Z light))
            (Fin 1) /\
     (0 <= hue <= 359)%Z /\ (30 <= sat <= 45)%Z /\ (80 <= light <= 92)%Z /\
     lifeMs c = Fin life /\ 9000 <= life <= 14000 /\
     fadeInPortion c = Fin 0.25 /\ fadeOutPortion c = Fin 0.25 /\
     createdAt c = performance_now h (clock_calls s)) /\
  (exists (c : circle) (s' : state) (hue sat light : Z) (life : Q),
     exec (spawnCircle Disk.tune h) s = Ok s' /\
     circles s' = circles s ++ [c] /\
     fill_color c =
       hsla (Fin (inject_Z hue)) (Fin (inject_Z sat)) (Fin (inject_Z light))
            (Fin 1) /\
     (0 <= hue <= 359)%Z /\ (60 <= sat <= 85)%Z /\ (55 <= light <= 75)%Z /\
     lifeMs c = Fin life /\ 6000 <= life <= 12000 /\
     fadeInPortion c = Fin 0.25 /\ fadeOutPortion c = Fin 0.25 /\
     createdAt c = performance_now h (clock_calls s)).
Proof.
  intros Hr.
  pose proof (Hr (3 + random_calls s)%nat) as H3.
  pose proof (Hr (4 + random_calls s)%nat) as H4.
  pose proof (Hr (5 + random_calls s)%nat) as H5.
  pose proof (Hr (6 + random_calls s)%nat) as H6.
  split.
  - destruct (spawnCircle_colour Ring.tune h s) as (c & R & Ec & El & Ei & Eo & Et).
    cbv zeta in Ec, El.
    cbn [Ring.tune sat_range light_range life_range fst snd sub neg mul add
         Math_floor] in Ec, El.
    eexists c, _, _, _, _, _. unfold exec. rewrite R.
    split; [reflexivity |]. split; [reflexivity |]. split; [exact Ec |].
    split; [| split; [| split; [| split; [exact El |
      split; [| split; [exact Ei | split; [exact Eo | exact Et]]]]]]].
    + floor_range.
    + floor_range.
    + floor_range.
    + lra.
  - destruct (spawnCircle_colour Disk.tune h s) as (c & R & Ec & El & Ei & Eo & Et).
    cbv zeta in Ec, El.
    cbn [Disk.tune sat_range light_range life_range fst snd sub neg mul add
         Math_floor] in Ec, El.
    eexists c, _, _, _, _, _. unfold exec. rewrite R.
    split; [reflexivity |]. split; [reflexivity |]. split; [exact Ec |].
    split; [| split; [| split; [| split; [exact El |
      split; [| split; [exact Ei | split; [exact Eo | exact Et]]]]]]].
    + floor_range.
    + floor_range.
    + floor_range.
    + lra.
Qed.

Lemma spawnCircle_colour_and_lifetime_witness :
  (exists (c : circle) (s' : state) (hue sat light : Z) (life : Q),
     exec (spawnCircle Ring.tune calm_host) fresh = Ok s' /\
     circles s' = circles fresh ++ [c] /\
     fill_color c =
       hsla (Fin (inject_Z hue)) (Fin (inject_Z sat)) (Fin (inject_Z light))
            (Fin 1) /\
     (0 <= hue <= 359)%Z /\ (30 <= sat <= 45)%Z /\ (80 <= light <= 92)%Z /\
     lifeMs c = Fin life /\ 9000 <= life <= 14000 /\
     fadeInPortion c = Fin 0.25 /\ fadeOutPortion c = Fin 0.25 /\
     createdAt c = performance_now calm_host (clock_calls fresh)) /\
  (exists (c : circle) (s' : state) (hue sat light : Z) (life : Q),
     exec (spawnCircle Disk.tune calm_host) fresh = Ok s' /\
     circles s' = circles fresh ++ [c] /\
     fill_color c =
       hsla (Fin (inject_Z hue)) (Fin (inject_Z sat)) (Fin (inject_Z light))
            (Fin 1) /\
     (0 <= hue <= 359)%Z /\ (60 <= sat <= 85)%Z /\ (55 <= light <= 75)%Z /\
     lifeMs c = Fin life /\ 6000 <= life <= 12000 /\
     fadeInPortion c = Fin 0.25 /\ fadeOutPortion c = Fin 0.25 /\
     createdAt c = performance_now calm_host (clock_calls fresh)).
Proof.
  apply (spawnCircle_colour_and_lifetime calm_host fresh). exact calm_draws.
Defined.

(** X4.  Whatever the window, the draws and the clock are, [spawnCircle]
    returns after seven calls of [Math.random()] and one of
    [performance.now()], with one circle more at the end of [circles],
    stamped with that clock reading, and the circles it found, the surface,
    the scale factor and both timestamps untouched. *)
Theorem spawnCircle_appends_one (k : tuning) (h : host) (s : state) :
  exists c : circle,
    exec (spawnCircle k h) s =
      Ok (State (surf s) (devicePixelRatioScale s) (circles s ++ [c])
                (lastSpawn s) (lastNow s) (7 + random_calls s)
                (1 + clock_calls s) (frames_requested s)) /\
    createdAt c = performance_now h (clock_calls s).
Proof.
  destruct (spawnCircle_colour k h s) as (c & R & _ & _ & _ & _ & Et).
  exists c. unfold exec. rewrite R. split; [reflexivity | exact Et].
Qed.

(** ** Opacity *)

Lemma clamp_nonpositive (v : Q) : v <= 0 -> Ring.clamp (Fin v) =n= Fin 0.
Proof.
  intros Hv. unfold Ring.clamp. cbn [Number_isFinite negb].
  unfold Math_min. cbn [lt].
  assert (E1 : Qltb 1 v = false) by (apply Qltb_ge; lra).
  rewrite E1. unfold Math_max. cbn [lt].
  assert (E0 : Qltb 0 v = false) by (apply Qltb_ge; lra).
  rewrite E0. reflexivity.
Qed.

(** X5.  The numeric guard of lines 126-128 sends NaN and both infinities
    to 0 (so +Infinity does not become 1), a finite value at or below 0 to
    0, one at or above 1 to 1, and leaves a value of [0, 1] as it is;
    applied twice it does what it does once. *)
Theorem clamp_cases (alpha : num) :
  (Number_isFinite alpha = false -> Ring.clamp alpha = Fin 0) /\
  (forall v : Q,
     alpha = Fin v ->
     (v <= 0 -> Ring.clamp alpha =n= Fin 0) /\
     (0 <= v <= 1 -> Ring.clamp alpha =n= Fin v) /\
     (1 <= v -> Ring.clamp alpha =n= Fin 1)) /\
  Ring.clamp (Ring.clamp alpha) = Ring.clamp alpha.
Proof.
  split; [| split].
  - destruct alpha; intros E; try discriminate; reflexivity.
  - intros v ->. unfold Ring.clamp. cbn [Number_isFinite negb].
    unfold Math_min, Math_max. cbn [lt].
    destruct (Qltb 1 v) eqn:E1.
    + apply Qltb_lt in E1. cbn [lt]. change (Qltb 0 1) with true. cbn.
      repeat split; intros; lra.
    + apply Qltb_ge in E1. cbn [lt].
      destruct (Qltb 0 v) eqn:E0.
      * apply Qltb_lt in E0. cbn.
        repeat split; intros; try lra; reflexivity.
      * apply Qltb_ge in E0. cbn.
        repeat split; intros; lra.
  - unfold Ring.clamp.
    destruct alpha as [| | |v]; cbn [Number_isFinite negb];
      try reflexivity.
    unfold Math_min, Math_max. cbn [lt].
    destruct (Qltb 1 v) eqn:E1; cbn [lt Number_isFinite negb].
    + reflexivity.
    + destruct (Qltb 0 v) eqn:E0; cbn [lt Number_isFinite negb].
      * rewrite E1. cbn [lt]. rewrite E0. reflexivity.
      * reflexivity.
Qed.

Lemma Qdiv_lt_mono (a b c : Q) : 0 < c -> a < b -> a / c < b / c.
Proof.
  intros Hc Hab. unfold Qdiv. apply Qmult_lt_compat_r; [| exact Hab].
  apply Qinv_lt_0_compat. exact Hc.
Qed.

(** X6.  For positive fade portions that sum to at most 1, the opacity of
    lines 113-124 (and 262-273) starts at 0 for progress 0, rises strictly
    while the progress is below the fade-in portion, staying under 1, is 1
    at both ends of the hold, and falls strictly, staying above 0, once the
    progress is past 1 minus the fade-out portion. *)
Theorem fade_rises_and_falls (c : circle) (fi fo : Q) :
  fadeInPortion c = Fin fi ->
  fadeOutPortion c = Fin fo ->
  0 < fi ->
  0 < fo ->
  fi + fo <= 1 ->
  fade (Fin 0) c =n= Fin 0 /\
  (forall t1 t2 : Q,
     0 <= t1 -> t1 < t2 -> t2 < fi ->
     exists a1 a2 : Q,
       fade (Fin t1) c = Fin a1 /\ fade (Fin t2) c = Fin a2 /\
       0 <= a1 /\ a1 < a2 /\ a2 < 1) /\
  fade (Fin fi) c = Fin 1 /\
  fade (Fin (1 - fo)) c = Fin 1 /\
  (forall t1 t2 : Q,
     1 - fo < t1 -> t1 < t2 -> t2 < 1 ->
     exists a1 a2 : Q,
       fade (Fin t1) c = Fin a1 /\ fade (Fin t2) c = Fin a2 /\
       a1 < 1 /\ a2 < a1 /\ 0 < a2).
Proof.
  intros Ei Eo Hi Ho Hsum.
  split; [| split; [| split; [| split]]].
  - destruct (fade_cases 0 fi fo c Ei Eo Hsum Hi Ho) as (F & _).
    rewrite (F Hi). cbn [num_eq]. field. lra.
  - intros t1 t2 H0 H12 H2.
    destruct (fade_cases t1 fi fo c Ei Eo Hsum Hi Ho) as (F1 & _).
    destruct (fade_cases t2 fi fo c Ei Eo Hsum Hi Ho) as (F2 & _).
    exists (t1 / fi), (t2 / fi).
    split; [apply F1; lra |]. split; [apply F2; lra |].
    split; [apply Qle_shift_div_l; lra |].
    split; [apply Qdiv_lt_mono; assumption |].
    apply Qlt_shift_div_r; lra.
  - destruct (fade_cases fi fi fo c Ei Eo Hsum Hi Ho) as (_ & _ & F).
    apply F. lra.
  - destruct (fade_cases (1 - fo) fi fo c Ei Eo Hsum Hi Ho) as (_ & _ & F).
    apply F. lra.
  - intros t1 t2 H1 H12 H2.
    destruct (fade_cases t1 fi fo c Ei Eo Hsum Hi Ho) as (_ & F1 & _).
    destruct (fade_cases t2 fi fo c Ei Eo Hsum Hi Ho) as (_ & F2 & _).
    exists ((1 - t1) / fo), ((1 - t2) / fo).
    split; [apply F1; lra |]. split; [apply F2; lra |].
    split; [apply Qlt_shift_div_r; lra |].
    split; [apply Qdiv_lt_mono; lra |].
    apply Qlt_shift_div_l; lra.
Qed.

Lemma fade_rises_and_falls_witness :
  fade (Fin 0) (lone (Fin 0) (Fin 10000)) =n= Fin 0 /\
  (forall t1 t2 : Q,
     0 <= t1 -> t1 < t2 -> t2 < 0.25 ->
     exists a1 a2 : Q,
       fade (Fin t1) (lone (Fin 0) (Fin 10000)) = Fin a1 /\
       fade (Fin t2) (lone (Fin 0) (Fin 10000)) = Fin a2 /\
       0 <= a1 /\ a1 < a2 /\ a2 < 1) /\
  fade (Fin 0.25) (lone (Fin 0) (Fin 10000)) = Fin 1 /\
  fade (Fin (1 - 0.25)) (lone (Fin 0) (Fin 10000)) = Fin 1 /\
  (forall t1 t2 : Q,
     1 - 0.25 < t1 -> t1 < t2 -> t2 < 1 ->
     exists a1 a2 : Q,
       fade (Fin t1) (lone (Fin 0) (Fin 10000)) = Fin a1 /\
       fade (Fin t2) (lone (Fin 0) (Fin 10000)) = Fin a2 /\
       a1 < 1 /\ a2 < a1 /\ 0 < a2).
Proof.
  apply (fade_rises_and_falls (lone (Fin 0) (Fin 10000)) 0.25 0.25);
    try reflexivity; lra.
Defined.

(** X7.  For a circle with fade portions 0.25 and a finite positive
    lifetime, at a finite age below the lifetime: when the age is not
    negative the two copies compute the same opacity before dimming, a
    value in [0, 1]; when the age is negative the second copy's opacity is
    negative while the first copy's is 0. *)
Theorem opacity_by_age_sign (now : num) (c : circle) (a l : Q) :
  age now c = Fin a ->
  lifeMs c = Fin l ->
  fadeInPortion c = Fin 0.25 ->
  fadeOutPortion c = Fin 0.25 ->
  a < l ->
  0 < l ->
  (0 <= a ->
     exists v : Q,
       Disk.opacity now c = Fin v /\ 0 <= v <= 1 /\
       Ring.opacity now c =n= Fin v) /\
  (a < 0 ->
     exists v : Q,
       Disk.opacity now c = Fin v /\ v < 0 /\
       Ring.opacity now c =n= Fin 0).
Proof.
  intros Ea El Ei Eo Hal Hl.
  unfold Ring.opacity, Disk.opacity. rewrite Ea, El, (div_Fin_pos a l Hl).
  set (t := a / l).
  assert (T1 : t < 1) by (apply Qlt_shift_div_r; lra).
  destruct (fade_cases t 0.25 0.25 c Ei Eo) as (F1 & F2 & F3); try lra.
  split.
  - intros H0.
    assert (T0 : 0 <= t) by (apply Qle_shift_div_l; lra).
    destruct (Qlt_le_dec t 0.25) as [A | A].
    + rewrite (F1 A). exists (t / 0.25).
      assert (B : 0 <= t / 0.25 <= 1).
      { split; [apply Qle_shift_div_l; lra | apply Qle_shift_div_r; lra]. }
      split; [reflexivity |]. split; [exact B | apply clamp_unit, B].
    + destruct (Qlt_le_dec (1 - 0.25) t) as [B | B].
      * rewrite (F2 B). exists ((1 - t) / 0.25).
        assert (D : 0 <= (1 - t) / 0.25 <= 1).
        { split; [apply Qle_shift_div_l; lra | apply Qle_shift_div_r; lra]. }
        split; [reflexivity |]. split; [exact D | apply clamp_unit, D].
      * rewrite (F3 (conj A B)). exists 1.
        split; [reflexivity |]. split; [lra | apply clamp_unit; lra].
  - intros H0.
    assert (T0 : t < 0) by (apply Qlt_shift_div_r; lra).
    assert (A : t < 0.25) by lra.
    rewrite (F1 A). exists (t / 0.25).
    assert (B : t / 0.25 < 0) by (apply Qlt_shift_div_r; lra).
    split; [reflexivity |]. split; [exact B |].
    apply clamp_nonpositive. lra.
Qed.

(** ** What a frame leaves alone *)

Lemma Ring_sweep_keeps (now delta : num) (n : nat) :
  forall s s' : state,
    Ring.sweep now delta n s = Ok (tt, s') ->
    sizing s' = sizing s /\
    frames_requested s' = frames_requested s /\
    random_calls s' = random_calls s /\
    clock_calls s' = clock_calls s /\
    lastNow s' = lastNow s.
Proof.
  induction n as [|i IH]; intros s s' R.
  - injection R as <-. auto 10.
  - cbn [Ring.sweep] in R. unfold bind at 1 in R.
    unfold Ring.visit, bind at 1, get in R.
    destruct (circles s !! i) as [c|]; [| discriminate].
    cbv zeta in R. unfold bind at 1, modify at 1 in R.
    destruct (ge (age now (Ring.advance delta c))
                 (lifeMs (Ring.advance delta c))).
    + unfold splice1, bind, get, modify in R.
      apply IH in R. exact R.
    + unfold bind, modify in R. apply IH in R. exact R.
Qed.

Lemma Disk_sweep_keeps (now : num) (n : nat) :
  forall s s' : state,
    Disk.sweep now n s = Ok (tt, s') ->
    sizing s' = sizing s /\
    frames_requested s' = frames_requested s /\
    random_calls s' = random_calls s /\
    clock_calls s' = clock_calls s /\
    lastNow s' = lastNow s.
Proof.
  induction n as [|i IH]; intros s s' R.
  - injection R as <-. auto 10.
  - cbn [Disk.sweep] in R. unfold bind at 1 in R.
    unfold Disk.visit, bind at 1, get in R.
    destruct (circles s !! i) as [c|]; [| discriminate].
    destruct (ge (age now c) (lifeMs c)).
    + unfold splice1, bind, get, modify in R.
      apply IH in R. exact R.
    + unfold bind, modify in R. apply IH in R. exact R.
Qed.

Lemma times_S (n : nat) (body : M unit) (s : state) :
  times (S n) body s = bind body (fun _ => times n body) s.
Proof. reflexivity. Qed.

Lemma times_spawnCircle_keeps (k : tuning) (h : host) (n : nat) :
  forall s s' : state,
    times n (spawnCircle k h) s = Ok (tt, s') ->
    sizing s' = sizing s /\
    frames_requested s' = frames_requested s /\
    random_calls s' = (7 * n + random_calls s)%nat /\
    clock_calls s' = (n + clock_calls s)%nat /\
    lastNow s' = lastNow s.
Proof.
  induction n as [|n IH]; intros s s' R.
  - injection R as <-. auto 10.
  - destruct (spawnCircle_pushes k h s) as (c & R1 & _).
    rewrite times_S, (bind_run _ _ _ _ _ R1) in R.
    apply IH in R.
    cbn [frames_requested random_calls clock_calls lastNow] in R.
    destruct R as (Sz & F & Rc & Cc & N).
    split; [exact Sz |]. split; [exact F |]. split; [lia |].
    split; [lia | exact N].
Qed.

Lemma spawn_block_keeps (k : tuning) (h : host) (now : num) (s s' : state) :
  spawn_block k h now s = Ok (tt, s') ->
  sizing s' = sizing s /\
  frames_requested s' = frames_requested s /\
  lastNow s' = lastNow s /\
  (gt (sub now (lastSpawn s)) (Fin 400) = false ->
     random_calls s' = random_calls s /\ clock_calls s' = clock_calls s).
Proof.
  unfold spawn_block, bind at 1, get.
  destruct (gt (sub now (lastSpawn s)) (Fin 400)).
  - unfold bind at 1, modify at 1. unfold bind at 1, call_Math_random at 1.
    destruct (lt (Fin (Math_random h (random_calls (set_lastSpawn now s))))
                 (Fin 0.2)).
    + erewrite bind_run; [| erewrite bind_run by apply random_run;
                             reflexivity ].
      unfold for_below.
      destruct (trip_count _) as [n|]; [| discriminate].
      intros R. apply times_spawnCircle_keeps in R.
      destruct R as (Sz & F & _ & _ & N). split; [exact Sz |].
      split; [exact F |]. split; [exact N | discriminate].
    + unfold bind, ret, for_below.
      destruct (trip_count _) as [n|]; [| discriminate].
      intros R. apply times_spawnCircle_keeps in R.
      destruct R as (Sz & F & _ & _ & N). split; [exact Sz |].
      split; [exact F |]. split; [exact N | discriminate].
  - unfold ret. intros [= <-]. auto 10.
Qed.

Lemma Ring_animate_keeps (h : host) (now : num) (s s' : state) :
  exec (Ring.animate h now) s = Ok s' ->
  sizing s' = sizing s /\
  frames_requested s' = S (frames_requested s) /\
  (gt (sub now (lastSpawn s)) (Fin 400) = false ->
     random_calls s' = random_calls s /\ clock_calls s' = clock_calls s).
Proof.
  unfold exec, Ring.animate.
  unfold bind at 1, requestAnimationFrame, modify at 1.
  unfold bind at 1, get at 1. cbv zeta.
  unfold bind at 1, modify at 1.
  unfold bind at 1, modify at 1.
  unfold bind at 1.
  match goal with |- context [spawn_block ?k ?h ?n ?st] =>
    destruct (spawn_block k h n st) as [[[] s1]| |] eqn:R1;
      try discriminate; apply spawn_block_keeps in R1 end.
  unfold bind at 1, get at 1. unfold bind at 1.
  match goal with |- context [Ring.sweep ?a ?b ?n ?st] =>
    destruct (Ring.sweep a b n st) as [[[] s2]| |] eqn:R2;
      try discriminate; apply Ring_sweep_keeps in R2 end.
  unfold modify. intros [= <-].
  destruct R1 as (Z1 & F1 & _ & C1). destruct R2 as (Z2 & F2 & Rc2 & Cc2 & _).
  unfold sizing in *.
  cbn [surf devicePixelRatioScale frames_requested random_calls clock_calls
       lastSpawn with_surf set_globalAlpha set_lastNow emit width height
       style_width style_height transform] in *.
  split; [congruence |]. split; [congruence |].
  intros G. destruct (C1 G). split; congruence.
Qed.

Lemma Disk_animate_keeps (h : host) (now : num) (s s' : state) :
  exec (Disk.animate h now) s = Ok s' ->
  sizing s' = sizing s /\
  frames_requested s' = S (frames_requested s) /\
  lastNow s' = lastNow s /\
  (gt (sub now (lastSpawn s)) (Fin 400) = false ->
     random_calls s' = random_calls s /\ clock_calls s' = clock_calls s).
Proof.
  unfold exec, Disk.animate.
  unfold bind at 1, requestAnimationFrame, modify at 1.
  unfold bind at 1, get at 1. cbv zeta.
  unfold bind at 1, modify at 1.
  unfold bind at 1.
  match goal with |- context [spawn_block ?k ?h ?n ?st] =>
    destruct (spawn_block k h n st) as [[[] s1]| |] eqn:R1;
      try discriminate; apply spawn_block_keeps in R1 end.
  unfold bind at 1, get at 1. unfold bind at 1.
  match goal with |- context [Disk.sweep ?a ?n ?st] =>
    destruct (Disk.sweep a n st) as [[[] s2]| |] eqn:R2;
      try discriminate; apply Disk_sweep_keeps in R2 end.
  unfold modify. intros [= <-].
  destruct R1 as (Z1 & F1 & N1 & C1).
  destruct R2 as (Z2 & F2 & Rc2 & Cc2 & N2).
  unfold sizing in *.
  cbn [surf devicePixelRatioScale frames_requested random_calls clock_calls
       lastSpawn lastNow with_surf set_globalAlpha emit width height
       style_width style_height transform] in *.
  split; [congruence |]. split; [congruence |]. split; [congruence |].
  intros G. destruct (C1 G). split; congruence.
Qed.

(** X11.  A frame of either copy asks for exactly one further frame,
    keeps the scale factor, the resolution, the displayed size and the
    transform, clears the rectangle from the origin to the resolution
    divided by the scale factor, then fills one arc per circle it keeps,
    last circle first, each at the circle's own position and radius under
    its opacity times the dimming factor (0.22 with the edge-ring gradient
    in the first copy, 0.25 with the centre-out gradient in the second),
    and ends with [globalAlpha] back at 1. *)
Theorem animate_frame_summary (h : host) (now : num) (s : state) :
  (exists s' : state,
     exec (Ring.animate h now) s = Ok s' /\
     frames_requested s' = S (frames_requested s) /\
     sizing s' = sizing s /\
     lastNow s' = now /\
     globalAlpha (surf s') = Fin 1 /\
     drawn (surf s') =
       drawn (surf s) ++
       clearRect (Fin 0) (Fin 0)
                 (div (width (surf s)) (devicePixelRatioScale s))
                 (div (height (surf s)) (devicePixelRatioScale s)) ::
       List.map
         (fun c => Ring.paint (mul (Ring.opacity now c) (Fin 0.22)) c)
         (rev (circles s'))) /\
  (exists s' : state,
     exec (Disk.animate h now) s = Ok s' /\
     frames_requested s' = S (frames_requested s) /\
     sizing s' = sizing s /\
     lastNow s' = lastNow s /\
     globalAlpha (surf s') = Fin 1 /\
     drawn (surf s') =
       drawn (surf s) ++
       clearRect (Fin 0) (Fin 0)
                 (div (width (surf s)) (devicePixelRatioScale s))
                 (div (height (surf s)) (devicePixelRatioScale s)) ::
       List.map
         (fun c => Disk.paint (mul (Disk.opacity now c) (Fin 0.25)) c)
         (rev (circles s'))).
Proof.
  split.
  - destruct (Ring_animate_run Ring.tune h _ (pushes_one_any _ _) now s eq_refl)
      as (born & s' & R & _ & _ & D & G & N & _).
    destruct (Ring_animate_keeps h now s s' R) as (Z & F & _).
    exists s'. auto 10.
  - destruct (Disk_animate_run Disk.tune h _ (pushes_one_any _ _) now s eq_refl)
      as (born & s' & R & _ & _ & D & G & _).
    destruct (Disk_animate_keeps h now s s' R) as (Z & F & N & _).
    exists s'. auto 10.
Qed.

(** ** Frames in sequence *)

Lemma filter_length_le {A : Type} (f : A -> bool) (l : list A) :
  (length (List.filter f l) <= length l)%nat.
Proof.
  induction l as [| a l IH]; [reflexivity |].
  cbn [List.filter]. destruct (f a); cbn [length]; lia.
Qed.

(** X12.  A frame that comes no more than 400 ms after the last spawn
    spawns nothing, in either copy: it returns with [lastSpawn] as it
    was, no draw consumed, the clock not read and no circle appended (the
    circles it leaves are among those it found, in the second copy
    unchanged). *)
Theorem no_spawn_within_400 (h : host) (t1 t2 : Q) (s : state) :
  lastSpawn s = Fin t1 ->
  t2 - t1 <= 400 ->
  (exists s' : state,
     exec (Ring.animate h (Fin t2)) s = Ok s' /\
     lastSpawn s' = Fin t1 /\
     random_calls s' = random_calls s /\
     clock_calls s' = clock_calls s /\
     (length (circles s') <= length (circles s))%nat) /\
  (exists s' : state,
     exec (Disk.animate h (Fin t2)) s = Ok s' /\
     lastSpawn s' = Fin t1 /\
     random_calls s' = random_calls s /\
     clock_calls s' = clock_calls s /\
     (length (circles s') <= length (circles s))%nat /\
     (forall c : circle, In c (circles s') -> In c (circles s))).
Proof.
  intros L Hle.
  assert (G : gt (sub (Fin t2) (lastSpawn s)) (Fin 400) = false).
  { rewrite L. cbn [sub neg add gt lt]. apply Qltb_ge. lra. }
  split.
  - destruct (Ring_animate_run Ring.tune h _ (pushes_one_any _ _) (Fin t2) s
                               eq_refl)
      as (born & s' & R & C & _ & _ & _ & _ & Sp).
    cbv zeta in Sp. rewrite G in Sp. destruct Sp as [B Ls].
    destruct (Ring_animate_keeps h (Fin t2) s s' R) as (_ & _ & Calls).
    destruct (Calls G) as [Rc Cc].
    exists s'. split; [exact R |]. split; [congruence |].
    split; [exact Rc |]. split; [exact Cc |].
    rewrite C, B, app_nil_r.
    etransitivity; [apply filter_length_le |].
    rewrite length_map. reflexivity.
  - destruct (Disk_animate_run Disk.tune h _ (pushes_one_any _ _) (Fin t2) s
                               eq_refl)
      as (born & s' & R & C & _ & _ & _ & Sp).
    cbv zeta in Sp. rewrite G in Sp. destruct Sp as [B Ls].
    destruct (Disk_animate_keeps h (Fin t2) s s' R) as (_ & _ & _ & Calls).
    destruct (Calls G) as [Rc Cc].
    exists s'. split; [exact R |]. split; [congruence |].
    split; [exact Rc |]. split; [exact Cc |].
    rewrite C, B, app_nil_r. split.
    + apply filter_length_le.
    + intros c Hin. apply List.filter_In in Hin. apply Hin.
Qed.

Lemma no_spawn_within_400_witness :
  (exists s' : state,
     exec (Ring.animate calm_host (Fin 1200)) mid_run = Ok s' /\
     lastSpawn s' = Fin 900 /\
     random_calls s' = random_calls mid_run /\
     clock_calls s' = clock_calls mid_run /\
     (length (circles s') <= length (circles mid_run))%nat) /\
  (exists s' : state,
     exec (Disk.animate calm_host (Fin 1200)) mid_run = Ok s' /\
     lastSpawn s' = Fin 900 /\
     random_calls s' = random_calls mid_run /\
     clock_calls s' = clock_calls mid_run /\
     (length (circles s') <= length (circles mid_run))%nat /\
     (forall c : circle, In c (circles s') -> In c (circles mid_run))).
Proof.
  apply (no_spawn_within_400 calm_host 900 1200 mid_run).
  - reflexivity.
  - lra.
Defined.







(** ** The page from load on *)

Lemma resizeCanvas_run (h : host) (s : state) :
  exists r : state,
    resizeCanvas h s = Ok (tt, r) /\
    circles r = circles s /\
    frames_requested r = frames_requested s /\
    in_sync h r.
Proof.
  eexists. split; [unfold resizeCanvas, bind, modify; reflexivity |].
  split; [reflexivity |]. split; [reflexivity |].
  eexists. split; [unfold exec, resizeCanvas, bind, modify; reflexivity |].
  reflexivity.
Qed.

Lemma in_sync_sizing (h : host) (s s' : state) :
  sizing s' = sizing s -> in_sync h s -> in_sync h s'.
Proof.
  intros E (r & R & Z).
  eexists. split; [unfold exec, resizeCanvas, bind, modify; reflexivity |].
  rewrite E, <- Z. unfold exec, resizeCanvas, bind, modify in R.
  injection R as <-. reflexivity.
Qed.

Section Runs.

Variable animate : host -> num -> M unit.
Variable shape : circle -> Prop.

Hypothesis animate_frame :
  forall (h : host) (now : num) (s : state),
    draws_in_range h ->
    Forall shape (circles s) ->
    exists s' : state,
      exec (animate h now) s = Ok s' /\
      Forall shape (circles s') /\
      sizing s' = sizing s /\
      frames_requested s' = S (frames_requested s).

Lemma run_keeps (es : list event) :
  forall (h0 : host) (s : state),
    Forall (fun e => draws_in_range (host_of e)) es ->
    Forall shape (circles s) ->
    in_sync h0 s ->
    exists s' : state,
      run animate es s = Ok (tt, s') /\
      frames_requested s' =
        (length (List.filter is_tick es) + frames_requested s)%nat /\
      Forall shape (circles s') /\
      in_sync (last_window h0 es) s'.
Proof.
  induction es as [|e es IH]; intros h0 s Hd Hs Hy.
  - exists s. split; [reflexivity |]. auto.
  - apply List.Forall_cons_iff in Hd. destruct Hd as [He Hd].
    destruct e as [h now | h]; cbn [run dispatch last_window List.filter is_tick].
    + destruct (animate_frame h now s He Hs) as (s1 & R1 & S1 & Z1 & F1).
      destruct (IH h0 s1 Hd S1 (in_sync_sizing h0 s s1 Z1 Hy))
        as (s' & R & F & S' & Y').
      exists s'. unfold exec in R1. unfold bind.
      destruct (animate h now s) as [[[] s0]| |]; try discriminate.
      injection R1 as ->. split; [exact R |].
      split; [cbn [length]; lia | auto].
    + destruct (resizeCanvas_run h s) as (s1 & R1 & C1 & F1 & Y1).
      rewrite <- C1 in Hs.
      destruct (IH h s1 Hd Hs Y1) as (s' & R & F & S' & Y').
      exists s'. rewrite (bind_run _ _ _ _ _ R1).
      split; [exact R |]. split; [lia | auto].
Qed.

Lemma start_run_keeps (h0 : host) (es : list event) (s : state) :
  Forall (fun e => draws_in_range (host_of e)) es ->
  Forall shape (circles s) ->
  exists s' : state,
    exec (start h0 ;; run animate es) s = Ok s' /\
    frames_requested s' =
      (1 + length (List.filter is_tick es) + frames_requested s)%nat /\
    Forall shape (circles s') /\
    in_sync (last_window h0 es) s'.
Proof.
  intros Hd Hs.
  destruct (resizeCanvas_run h0 s) as (s1 & R1 & C1 & F1 & Y1).
  set (s2 := State (surf s1) (devicePixelRatioScale s1) (circles s1)
                   (lastSpawn s1) (lastNow s1) (random_calls s1)
                   (clock_calls s1) (S (frames_requested s1))).
  assert (Y2 : in_sync h0 s2) by (apply (in_sync_sizing h0 s1 s2); auto).
  assert (S2 : Forall shape (circles s2)) by (cbn; rewrite C1; exact Hs).
  destruct (run_keeps es h0 s2 Hd S2 Y2) as (s' & R & F & S' & Y').
  exists s'. unfold exec, start.
  unfold bind at 1. unfold bind at 1. rewrite R1.
  unfold requestAnimationFrame, modify. fold s2. rewrite R.
  split; [reflexivity |]. split; [| auto].
  rewrite F. cbn [frames_requested s2]. lia.
Qed.

End Runs.

(** X13.  From the moment the script starts, through any sequence of
    frame callbacks and resize events whose draws are in [0, 1), either
    copy never throws and never loops forever.  Afterwards the number of
    frames asked for is one more than the number of frames run, every
    circle still has fade portions 0.25 and a finite lifetime in the
    copy's range (given the ones it started with did), and the surface is
    sized for the window of the latest resize event, or of the start when
    there was none. *)
Theorem page_run_keeps_shape (h0 : host) (es : list event) (s : state) :
  Forall (fun e => draws_in_range (host_of e)) es ->
  (Forall (as_spawned 9000 14000) (circles s) ->
   exists s' : state,
     exec (start h0 ;; run Ring.animate es) s = Ok s' /\
     frames_requested s' =
       (1 + length (List.filter is_tick es) + frames_requested s)%nat /\
     Forall (as_spawned 9000 14000) (circles s') /\
     in_sync (last_window h0 es) s') /\
  (Forall (as_spawned 6000 12000) (circles s) ->
   exists s' : state,
     exec (start h0 ;; run Disk.animate es) s = Ok s' /\
     frames_requested s' =
       (1 + length (List.filter is_tick es) + frames_requested s)%nat /\
     Forall (as_spawned 6000 12000) (circles s') /\
     in_sync (last_window h0 es) s').
Proof.
  intros Hd. split; intros Hs.
  - apply (start_run_keeps Ring.animate (as_spawned 9000 14000));
      [| exact Hd | exact Hs].
    intros h now s0 Hr Hs0.
    destruct (Ring_animate_keeps_shape h now s0 Hr Hs0) as (s' & R & S').
    destruct (Ring_animate_keeps h now s0 s' R) as (Z & F & _).
    exists s'. auto.
  - apply (start_run_keeps Disk.animate (as_spawned 6000 12000));
      [| exact Hd | exact Hs].
    intros h now s0 Hr Hs0.
    destruct (Disk_animate_keeps_shape h now s0 Hr Hs0) as (s' & R & S').
    destruct (Disk_animate_keeps h now s0 s' R) as (Z & F & _).
    exists s'. auto.
Qed.

Lemma page_run_keeps_shape_witness :
  (Forall (as_spawned 9000 14000) (circles fresh) ->
   exists s' : state,
     exec (start calm_host ;;
           run Ring.animate
               [tick calm_host (Fin 1000); resized small_host;
                tick burst_host (Fin 1500)]) fresh = Ok s' /\
     frames_requested s' =
       (1 + length (List.filter is_tick
                      [tick calm_host (Fin 1000); resized small_host;
                       tick burst_host (Fin 1500)])
        + frames_requested fresh)%nat /\
     Forall (as_spawned 9000 14000) (circles s') /\
     in_sync (last_window calm_host
                [tick calm_host (Fin 1000); resized small_host;
                 tick burst_host (Fin 1500)]) s') /\
  (Forall (as_spawned 6000 12000) (circles fresh) ->
   exists s' : state,
     exec (start calm_host ;;
           run Disk.animate
               [tick calm_host (Fin 1000); resized small_host;
                tick burst_host (Fin 1500)]) fresh = Ok s' /\
     frames_requested s' =
       (1 + length (List.filter is_tick
                      [tick calm_host (Fin 1000); resized small_host;
                       tick burst_host (Fin 1500)])
        + frames_requested fresh)%nat /\
     Forall (as_spawned 6000 12000) (circles s') /\
     in_sync (last_window calm_host
                [tick calm_host (Fin 1000); resized small_host;
                 tick burst_host (Fin 1500)]) s').
Proof.
  apply (page_run_keeps_shape calm_host
           [tick calm_host (Fin 1000); resized small_host;
            tick burst_host (Fin 1500)] fresh).
  apply List.Forall_cons; [intros n; cbn; lra |].
  apply List.Forall_cons; [intros n; cbn; lra |].
  apply List.Forall_cons; [intros n; destruct n; cbn; lra |].
  apply List.Forall_nil.
Defined.

(** ** More theorems at concrete inputs *)

Lemma opacity_by_age_sign_witness :
  (0 <= -0.5 ->
     exists v : Q,
       Disk.opacity (Fin 1000) (lone (Fin 1000.5) (Fin 9000)) = Fin v /\
       0 <= v <= 1 /\
       Ring.opacity (Fin 1000) (lone (Fin 1000.5) (Fin 9000)) =n= Fin v) /\
  (-0.5 < 0 ->
     exists v : Q,
       Disk.opacity (Fin 1000) (lone (Fin 1000.5) (Fin 9000)) = Fin v /\
       v < 0 /\
       Ring.opacity (Fin 1000) (lone (Fin 1000.5) (Fin 9000)) =n= Fin 0).
Proof.
  apply (opacity_by_age_sign (Fin 1000) (lone (Fin 1000.5) (Fin 9000))
                             (-0.5) 9000);
    try reflexivity; lra.
Defined.

Lemma clamp_cases_witness :
  Ring.clamp PosInf = Fin 0 /\ Ring.clamp (Fin 3) =n= Fin 1.
Proof.
  split.
  - apply (proj1 (clamp_cases PosInf)). reflexivity.
  - apply (proj1 (proj2 (clamp_cases (Fin 3))) 3); [reflexivity | lra].
Defined.

(** * The program on doubles *)

(** ** resizeCanvas over doubles *)

(** C8.  [resizeCanvas], with every product rounded as the code rounds it,
    always returns; with [scale] the smaller of 2 and the device pixel
    ratio (1 when that is undefined, NaN or a zero) it leaves [scale] in
    [devicePixelRatioScale], the canvas [Math.floor(W * scale)] by
    [Math.floor(H * scale)] pixels, styled [W px] by [H px], under the
    transform (scale, 0, 0, scale, 0, 0).  On a 1000 x 800 window at
    device pixel ratio 1.15 the canvas is 1150 by 919: the product
    1000 * 1.15 rounds to 1150 and 800 * 1.15 to 919.9999999999999. *)
Theorem resizeCanvas_sets_backing_store :
  (forall (h : Double.host) (s : Double.state),
     let dpr_or_1 :=
       match Double.devicePixelRatio h with
       | None | Some S754_nan | Some (S754_zero _) => Double.of_Z 1
       | Some d => d
       end in
     let scale := Double.Math_min (Double.of_Z 2) dpr_or_1 in
     exists s' : Double.state,
       Double.exec (Double.resizeCanvas h) s = Ok s' /\
       Double.devicePixelRatioScale s' = scale /\
       Double.width (Double.surf s')
         = Double.Math_floor (Double.mul (Double.innerWidth h) scale) /\
       Double.height (Double.surf s')
         = Double.Math_floor (Double.mul (Double.innerHeight h) scale) /\
       Double.style_width (Double.surf s') = Double.px (Double.innerWidth h) /\
       Double.style_height (Double.surf s')
         = Double.px (Double.innerHeight h) /\
       Double.transform (Double.surf s')
         = (scale, Double.of_Z 0, Double.of_Z 0, scale,
            Double.of_Z 0, Double.of_Z 0)) /\
  (exists s' : Double.state,
     Double.exec (Double.resizeCanvas Double.zoomed_page) Double.fresh
       = Ok s' /\
     Double.devicePixelRatioScale s' = Double.dec 115 2 /\
     Double.width (Double.surf s') = Double.of_Z 1150 /\
     Double.height (Double.surf s') = Double.of_Z 919).
Proof.
  split.
  - intros h s dpr_or_1 scale.
    assert (E : Double.or_else (Double.devicePixelRatio h) (Double.of_Z 1)
                = dpr_or_1).
    { subst dpr_or_1. unfold Double.or_else, Double.truthy.
      destruct (Double.devicePixelRatio h) as [[| | |]|]; reflexivity. }
    eexists. split.
    + unfold Double.exec, Double.resizeCanvas, Double.bind, Double.modify.
      reflexivity.
    + cbn [Double.devicePixelRatioScale Double.surf Double.width
           Double.height Double.style_width Double.style_height
           Double.transform Double.with_surf Double.set_width
           Double.set_height Double.set_style_width Double.set_style_height
           Double.setTransform Double.set_devicePixelRatioScale].
      rewrite E. repeat split; reflexivity.
  - eexists. split; [vm_compute; reflexivity |].
    vm_compute. repeat split; reflexivity.
Qed.

(** ** Comparisons of doubles *)

Lemma SFcompare_antisym (x y : spec_float) :
  SFcompare y x = option_map CompOpp (SFcompare x y).
Proof.
  destruct x as [sx | sx | | sx mx ex], y as [sy | sy | | sy my ey];
    try reflexivity;
    try (destruct sx; reflexivity);
    try (destruct sy; reflexivity);
    try (destruct sx, sy; reflexivity).
  cbn [SFcompare option_map].
  change (Pos.compare_cont Eq my mx) with (Pos.compare my mx).
  change (Pos.compare_cont Eq mx my) with (Pos.compare mx my).
  rewrite (Z.compare_antisym ex ey), (Pos.compare_antisym mx my).
  destruct sx, sy; try reflexivity;
    destruct (ex ?= ey)%Z; cbn [CompOpp]; try reflexivity.
Qed.

Lemma Double_lt_le (x y : Double.double) :
  Double.lt x y = true -> Double.le x y = true.
Proof.
  unfold Double.lt, Double.le, SFltb, SFleb.
  destruct (SFcompare x y) as [[| |]|]; intros E; try discriminate E.
  reflexivity.
Qed.

Lemma Double_not_lt_le (x y : Double.double) :
  x <> S754_nan -> y <> S754_nan ->
  Double.lt x y = false -> Double.le y x = true.
Proof.
  intros Hx Hy. unfold Double.lt, Double.le, SFltb, SFleb.
  rewrite (SFcompare_antisym x y).
  destruct (SFcompare x y) as [[| |]|] eqn:E; cbn; try reflexivity;
    try discriminate.
  intros _. destruct x, y; try discriminate E; congruence.
Qed.

Lemma Double_le_refl (x : Double.double) :
  x <> S754_nan -> Double.le x x = true.
Proof.
  intros Hx. unfold Double.le, SFleb.
  destruct x as [sx | sx | | sx mx ex]; try congruence;
    try (destruct sx; reflexivity).
  cbn [SFcompare]. rewrite Z.compare_refl.
  change (Pos.compare_cont Eq mx mx) with (Pos.compare mx mx).
  rewrite Pos.compare_refl. destruct sx; reflexivity.
Qed.

Lemma Double_Math_min_cases (x y : Double.double) :
  Double.Math_min x y = x \/ Double.Math_min x y = y.
Proof.
  unfold Double.Math_min.
  destruct x as [sx | sx | | sx mx ex], y as [sy | sy | | sy my ey]; auto;
    try (destruct (Double.lt _ _); auto).
  destruct sx, sy; auto.
Qed.

Lemma Double_Math_max_cases (x y : Double.double) :
  Double.Math_max x y = x \/ Double.Math_max x y = y.
Proof.
  unfold Double.Math_max.
  destruct x as [sx | sx | | sx mx ex], y as [sy | sy | | sy my ey]; auto;
    try (destruct (Double.lt _ _); auto).
  destruct sx, sy; auto.
Qed.

Lemma Double_Math_min_le (x y : Double.double) :
  x <> S754_nan -> y <> S754_nan ->
  Double.le (Double.Math_min x y) x = true /\
  Double.le (Double.Math_min x y) y = true.
Proof.
  intros Hx Hy.
  assert (G : (if Double.lt y x then Double.le y x else Double.le x y) = true).
  { destruct (Double.lt y x) eqn:E.
    - apply Double_lt_le, E.
    - apply Double_not_lt_le; assumption. }
  pose proof (Double_le_refl x Hx) as Rx.
  pose proof (Double_le_refl y Hy) as Ry.
  unfold Double.Math_min.
  destruct x as [sx | sx | | sx mx ex], y as [sy | sy | | sy my ey];
    try congruence;
    try (destruct (Double.lt _ _); auto).
Qed.

Lemma Double_Math_max_ge (x y : Double.double) :
  x <> S754_nan -> y <> S754_nan ->
  Double.le x (Double.Math_max x y) = true /\
  Double.le y (Double.Math_max x y) = true.
Proof.
  intros Hx Hy.
  assert (G : (if Double.lt x y then Double.le x y else Double.le y x) = true).
  { destruct (Double.lt x y) eqn:E.
    - apply Double_lt_le, E.
    - apply Double_not_lt_le; assumption. }
  pose proof (Double_le_refl x Hx) as Rx.
  pose proof (Double_le_refl y Hy) as Ry.
  unfold Double.Math_max.
  destruct x as [sx | sx | | sx mx ex], y as [sy | sy | | sy my ey];
    try congruence;
    try (destruct (Double.lt _ _); auto).
Qed.

(** ** The guards of the first copy, on doubles *)

(** X18.  The numeric guard of lines 126-128, on doubles: whatever double
    the fade computed, NaN and the infinities included, the guarded
    opacity is a number between 0 and 1, and it is +0 when the input is
    NaN or infinite. *)
Theorem clamp_on_doubles (alpha : Double.double) :
  Double.le (Double.of_Z 0) (Double.Ring.clamp alpha) = true /\
  Double.le (Double.Ring.clamp alpha) (Double.of_Z 1) = true /\
  (Double.Number_isFinite alpha = false ->
   Double.Ring.clamp alpha = Double.of_Z 0).
Proof.
  unfold Double.Ring.clamp.
  set (a := if negb (Double.Number_isFinite alpha) then Double.of_Z 0
            else alpha).
  assert (Ha : a <> S754_nan).
  { subst a. destruct alpha; cbn; discriminate. }
  assert (H1 : Double.of_Z 1 <> S754_nan) by (vm_compute; discriminate).
  assert (H0 : Double.of_Z 0 <> S754_nan) by (vm_compute; discriminate).
  destruct (Double_Math_min_le a (Double.of_Z 1) Ha H1) as [_ M1].
  assert (Hm : Double.Math_min a (Double.of_Z 1) <> S754_nan).
  { destruct (Double_Math_min_cases a (Double.of_Z 1)) as [-> | ->];
      assumption. }
  destruct (Double_Math_max_ge (Double.of_Z 0) _ H0 Hm) as [G0 _].
  split; [exact G0 |]. split.
  - destruct (Double_Math_max_cases (Double.of_Z 0)
                (Double.Math_min a (Double.of_Z 1))) as [-> | ->].
    + vm_compute. reflexivity.
    + exact M1.
  - intros F. subst a. rewrite F. vm_compute. reflexivity.
Qed.

(** X19.  The delta of lines 89-91, on doubles: for every pair of
    timestamps whose difference is a number, the delta is between 0 and
    50; it is NaN when the difference is. *)
Theorem frame_delta_on_doubles (now last : Double.double) :
  (Double.sub now last = S754_nan ->
   Double.Ring.frame_delta now last = S754_nan) /\
  (Double.sub now last <> S754_nan ->
   Double.le (Double.of_Z 0) (Double.Ring.frame_delta now last) = true /\
   Double.le (Double.Ring.frame_delta now last) (Double.of_Z 50) = true).
Proof.
  unfold Double.Ring.frame_delta. set (d := Double.sub now last).
  split.
  - intros ->. reflexivity.
  - intros Hd.
    assert (H0 : Double.of_Z 0 <> S754_nan) by (vm_compute; discriminate).
    assert (H50 : Double.of_Z 50 <> S754_nan) by (vm_compute; discriminate).
    destruct (Double_Math_max_ge d (Double.of_Z 0) Hd H0) as [_ G0].
    assert (Hm : Double.Math_max d (Double.of_Z 0) <> S754_nan).
    { destruct (Double_Math_max_cases d (Double.of_Z 0)) as [-> | ->];
        assumption. }
    destruct (Double_Math_min_le _ (Double.of_Z 50) Hm H50) as [_ M50].
    split; [| exact M50].
    destruct (Double_Math_min_cases (Double.Math_max d (Double.of_Z 0))
                (Double.of_Z 50)) as [-> | ->].
    + exact G0.
    + vm_compute. reflexivity.
Qed.

(** X20.  [resizeCanvas] on doubles settles and touches nothing else: run
    again under the same window it changes nothing, and the circles, both
    timestamps, the call counters, [globalAlpha] and what has been drawn
    are as they were before the first run. *)
Theorem resizeCanvas_on_doubles_settles
    (h : Double.host) (s : Double.state) :
  exists s1 : Double.state,
    Double.exec (Double.resizeCanvas h) s = Ok s1 /\
    Double.exec (Double.resizeCanvas h) s1 = Ok s1 /\
    Double.circles s1 = Double.circles s /\
    Double.lastSpawn s1 = Double.lastSpawn s /\
    Double.lastNow s1 = Double.lastNow s /\
    Double.random_calls s1 = Double.random_calls s /\
    Double.clock_calls s1 = Double.clock_calls s /\
    Double.frames_requested s1 = Double.frames_requested s /\
    Double.globalAlpha (Double.surf s1) = Double.globalAlpha (Double.surf s) /\
    Double.drawn (Double.surf s1) = Double.drawn (Double.surf s).
Proof.
  eexists. split.
  - unfold Double.exec, Double.resizeCanvas, Double.bind, Double.modify.
    reflexivity.
  - repeat split; reflexivity.
Qed.

(** ** The loops and the spawn block, on doubles *)

(** In this section the names are those of [Double]. *)
Section OnDoubles.

Import Double.
Local Open Scope double_scope.













End OnDoubles.

(** ** The code on doubles, at concrete inputs *)


(** C7.  A burst can be of four circles.  On a 1000 x 800 page whose first
    draw is 0.1, below 0.2, and whose second draw is 1 - 2^-53, the largest
    double below 1, [random(2, 4)] rounds to 4 and the frame at 1000 of
    either copy appends four circles, after 2 + 4 * 7 draws. *)
Theorem spawn_burst_of_four :
  let h := Double.edge_page in
  Double.lt (Double.Math_random h 0) (Double.dec 2 1) = true /\
  Double.le (Double.of_Z 0) (Double.Math_random h 1) = true /\
  Double.lt (Double.Math_random h 1) (Double.of_Z 1) = true /\
  Double.add (Double.mul (Double.Math_random h 1)
                (Double.sub (Double.of_Z 4) (Double.of_Z 2)))
             (Double.of_Z 2) = Double.of_Z 4 /\
  (exists s' : Double.state,
     Double.exec (Double.bind (Double.start h)
                    (fun _ => Double.Ring.animate h (Double.of_Z 1000)))
                 Double.fresh = Ok s' /\
     Double.lastSpawn s' = Double.of_Z 1000 /\
     length (Double.circles s') = 4%nat /\
     Double.random_calls s' = 30%nat /\
     Double.clock_calls s' = 4%nat) /\
  (exists s' : Double.state,
     Double.exec (Double.bind (Double.start h)
                    (fun _ => Double.Disk.animate h (Double.of_Z 1000)))
                 Double.fresh = Ok s' /\
     Double.lastSpawn s' = Double.of_Z 1000 /\
     length (Double.circles s') = 4%nat /\
     Double.random_calls s' = 30%nat /\
     Double.clock_calls s' = 4%nat).
Proof.
  intros h.
  split; [vm_compute; reflexivity |].
  split; [vm_compute; reflexivity |].
  split; [vm_compute; reflexivity |].
  split; [vm_compute; reflexivity |].
  split.
  - eexists. split; [vm_compute; reflexivity |].
    vm_compute. repeat split; reflexivity.
  - eexists. split; [vm_compute; reflexivity |].
    vm_compute. repeat split; reflexivity.
Qed.

(** The third scenario value of C3 as the code computes it: at
    age 9500 of a lifetime of 10000 with fade portions 0.25, both copies
    compute (1 - 0.95) / 0.25 with 1 - 0.95 rounded, which is six units in
    the last place above the double 0.2. *)
Lemma fade_out_value_is_rounded :
  Double.Disk.opacity (Double.of_Z 9500)
      (Double.lone (Double.of_Z 0) (Double.of_Z 10000))
    = S754_finite false 7205759403792800 (-55) /\
  Double.Ring.opacity (Double.of_Z 9500)
      (Double.lone (Double.of_Z 0) (Double.of_Z 10000))
    = S754_finite false 7205759403792800 (-55) /\
  Double.dec 2 1 = S754_finite false 7205759403792794 (-55) /\
  Double.lt (Double.dec 2 1)
            (Double.Disk.opacity (Double.of_Z 9500)
               (Double.lone (Double.of_Z 0) (Double.of_Z 10000))) = true.
Proof. vm_compute. repeat split; reflexivity. Qed.
